(** * Liquid Glass: the fragment shader and its Clutter effect

    A shallow embedding of [shader.js] (the Cogl GLSL fragment shader
    [FRAGMENT_SHADER]), of [effect.js] (the colour parser, the setters
    and the uniform upload of [LiquidGlassEffect]), of the tint parser
    and the clip computation of [panel.js], and of the colour
    conversions of the preferences window.

    Numbers.  GLSL [float]s and JavaScript numbers are modelled as real
    numbers: [+], [*], [/], [sqrt], [cos] and [sin] are the exact
    operations of [R].  Where the code tests for [NaN] or meets it (the
    colour parsers, the clip computation) the model has it as a value
    of its own.  Rounding and overflow are outside the model;
    division and [sqrt] are the total functions of the Standard Library,
    and the theorems that speak about guarded divisions state the bound
    on each divisor explicitly.

    Texture reads.  [texture2D(tex, uv)] is a read of the background
    sampler.  The sampler is a function [tex : vec2 -> vec3]; every
    read is also logged, so that the number and the coordinates of the
    samples taken by [tap] and [main] can be stated. *)

From Stdlib Require Import Reals Lra Psatz List String Ascii ZArith Bool.
From Stdlib Require HexString.
Import ListNotations.
Open Scope R_scope.

(** ** Vectors *)

Record vec2 : Type := Vec2 { v2x : R; v2y : R }.
Record vec3 : Type := Vec3 { v3x : R; v3y : R; v3z : R }.
Record vec4 : Type := Vec4 { v4rgb : vec3; v4a : R }.

Module GLSL.

(** Component-wise arithmetic, as GLSL defines it on [vec2] and [vec3];
    the [s]-suffixed operations take a scalar on the right. *)

Definition add2 (a b : vec2) : vec2 := Vec2 (v2x a + v2x b) (v2y a + v2y b).
Definition sub2 (a b : vec2) : vec2 := Vec2 (v2x a - v2x b) (v2y a - v2y b).
Definition mul2 (a b : vec2) : vec2 := Vec2 (v2x a * v2x b) (v2y a * v2y b).
Definition div2 (a b : vec2) : vec2 := Vec2 (v2x a / v2x b) (v2y a / v2y b).
Definition adds2 (a : vec2) (s : R) : vec2 := Vec2 (v2x a + s) (v2y a + s).
Definition muls2 (a : vec2) (s : R) : vec2 := Vec2 (v2x a * s) (v2y a * s).
Definition smul2 (s : R) (a : vec2) : vec2 := Vec2 (s * v2x a) (s * v2y a).
Definition sdiv2 (s : R) (a : vec2) : vec2 := Vec2 (s / v2x a) (s / v2y a).
Definition ssub2 (s : R) (a : vec2) : vec2 := Vec2 (s - v2x a) (s - v2y a).
Definition neg2 (a : vec2) : vec2 := Vec2 (- v2x a) (- v2y a).

Definition add3 (a b : vec3) : vec3 :=
  Vec3 (v3x a + v3x b) (v3y a + v3y b) (v3z a + v3z b).
Definition sub3 (a b : vec3) : vec3 :=
  Vec3 (v3x a - v3x b) (v3y a - v3y b) (v3z a - v3z b).
Definition mul3 (a b : vec3) : vec3 :=
  Vec3 (v3x a * v3x b) (v3y a * v3y b) (v3z a * v3z b).
Definition adds3 (a : vec3) (s : R) : vec3 :=
  Vec3 (v3x a + s) (v3y a + s) (v3z a + s).
Definition muls3 (a : vec3) (s : R) : vec3 :=
  Vec3 (v3x a * s) (v3y a * s) (v3z a * s).
Definition smul3 (s : R) (a : vec3) : vec3 :=
  Vec3 (s * v3x a) (s * v3y a) (s * v3z a).
Definition divs3 (a : vec3) (s : R) : vec3 :=
  Vec3 (v3x a / s) (v3y a / s) (v3z a / s).

(** The swizzle [.xy]. *)
Definition xy (a : vec3) : vec2 := Vec2 (v3x a) (v3y a).

(** Built-in functions, after the GLSL specification (section 8). *)

Definition abs2 (a : vec2) : vec2 := Vec2 (Rabs (v2x a)) (Rabs (v2y a)).
Definition min2 (a b : vec2) : vec2 :=
  Vec2 (Rmin (v2x a) (v2x b)) (Rmin (v2y a) (v2y b)).
Definition maxs2 (a : vec2) (s : R) : vec2 :=
  Vec2 (Rmax (v2x a) s) (Rmax (v2y a) s).

Definition clamp (x lo hi : R) : R := Rmin (Rmax x lo) hi.
Definition clamp2 (a lo hi : vec2) : vec2 :=
  Vec2 (clamp (v2x a) (v2x lo) (v2x hi)) (clamp (v2y a) (v2y lo) (v2y hi)).

Definition dot2 (a b : vec2) : R := v2x a * v2x b + v2y a * v2y b.
Definition dot3 (a b : vec3) : R :=
  v3x a * v3x b + v3y a * v3y b + v3z a * v3z b.
Definition length2 (a : vec2) : R := sqrt (dot2 a a).
Definition length3 (a : vec3) : R := sqrt (dot3 a a).
Definition normalize (a : vec3) : vec3 := divs3 a (length3 a).

Definition mix (x y a : R) : R := x * (1 - a) + y * a.
Definition mix3 (x y : vec3) (a : R) : vec3 :=
  Vec3 (mix (v3x x) (v3x y) a) (mix (v3y x) (v3y y) a) (mix (v3z x) (v3z y) a).

Definition smoothstep (edge0 edge1 x : R) : R :=
  let t := clamp ((x - edge0) / (edge1 - edge0)) 0 1 in
  t * t * (3 - 2 * t).

Definition refract (I N : vec3) (eta : R) : vec3 :=
  let k := 1 - eta * eta * (1 - dot3 N I * dot3 N I) in
  if Rlt_dec k 0 then Vec3 0 0 0
  else sub3 (smul3 eta I) (smul3 (eta * dot3 N I + sqrt k) N).

End GLSL.

(** ** Logged texture reads *)

Definition Fetch (A : Type) : Type := (A * list vec2)%type.

Definition ret {A : Type} (a : A) : Fetch A := (a, []).

Definition bind {A B : Type} (m : Fetch A) (k : A -> Fetch B) : Fetch B :=
  let (a, l1) := m in
  let (b, l2) := k a in
  (b, l1 ++ l2).

Notation "x <- m ;; k" := (bind m (fun x => k))
  (at level 61, m at next level, right associativity).

Definition value {A : Type} (m : Fetch A) : A := fst m.
Definition reads {A : Type} (m : Fetch A) : list vec2 := snd m.

(** ** shader.js: FRAGMENT_SHADER *)

Module Shader.
Import GLSL.

(** The uniforms of the shader, apart from the sampler. *)
Record Uniforms : Type := mkUniforms {
  width : R;
  height : R;
  u_ior : R;
  u_ca : R;
  u_dist : R;
  u_cr : R;
  u_fres : R;
  u_tint_r : R;
  u_tint_g : R;
  u_tint_b : R;
  u_tint_a : R;
  u_blur : R
}.

Definition LIGHT_DIR : vec3 := Vec3 (-0.32444) 0.48666 0.81110.
Definition HALF_VEC : vec3 := Vec3 (-0.17045) 0.25568 0.95156.

Definition sdf (p h : vec2) (r : R) : R :=
  let r := Rmin r (Rmin (v2x h) (v2y h)) in
  let d := adds2 (sub2 (abs2 p) h) r in
  Rmin (Rmax (v2x d) (v2y d)) 0 + length2 (maxs2 d 0) - r.

Section WithSampler.

(** [uniform sampler2D tex], read through [texture2D(tex, uv).rgb]. *)
Variable tex : vec2 -> vec3.

Definition texture2D (uv : vec2) : Fetch vec3 := (tex uv, [uv]).

Definition INV_N : R := 1 / 12.
Definition GA : R := 2.39996323.

(** The body of [for (int i = 0; i < N; i++)] in [tap]: [n] counts
    the iterations that remain, [i] is the loop variable and [s]
    the accumulator. *)
Fixpoint tap_loop (n i : nat) (uv invRes : vec2) (blur : R) (s : vec3)
  : Fetch vec3 :=
  match n with
  | O => ret s
  | S n' =>
      let fi := INR i in
      let r := sqrt ((fi + 0.5) * INV_N) * blur in
      let a := fi * GA in
      c <- texture2D
             (clamp2 (add2 uv (mul2 (muls2 (Vec2 (cos a) (sin a)) r) invRes))
                     invRes (ssub2 1 invRes)) ;;
      tap_loop n' (S i) uv invRes blur (add3 s c)
  end.

Definition tap (uv invRes : vec2) (blur : R) : Fetch vec3 :=
  let uv := clamp2 uv invRes (ssub2 1 invRes) in
  if Rlt_dec blur 0.5 then texture2D uv
  else
    s <- tap_loop 12 0 uv invRes blur (Vec3 0 0 0) ;;
    ret (muls3 s INV_N).

(** [main], one definition per local of the source.  [v_uv] is
    [cogl_tex_coord_in[0].xy]. *)

Definition res (u : Uniforms) : vec2 := Vec2 (width u) (height u).
Definition invRes (u : Uniforms) : vec2 := sdiv2 1 (res u).

Definition p (u : Uniforms) (v_uv : vec2) : vec2 :=
  sub2 (mul2 v_uv (res u)) (muls2 (res u) 0.5).
Definition hs (u : Uniforms) : vec2 := muls2 (res u) 0.5.
Definition cr (u : Uniforms) : R :=
  Rmin (u_cr u) (Rmin (v2x (hs u)) (v2y (hs u))).

Definition d (u : Uniforms) (v_uv : vec2) : R :=
  sdf (p u v_uv) (hs u) (cr u).
Definition edge (u : Uniforms) (v_uv : vec2) : R :=
  1 - smoothstep (-1.5) 0.5 (d u v_uv).

(** Convex dome. *)

Definition invHs2 (u : Uniforms) : vec2 :=
  mul2 (smul2 4 (invRes u)) (invRes u).

Definition q (u : Uniforms) (v_uv : vec2) : vec2 :=
  min2 (div2 (abs2 (p u v_uv)) (hs u)) (Vec2 1 1).
Definition ax (u : Uniforms) (v_uv : vec2) : R :=
  Rmax (1 - v2x (q u v_uv) * v2x (q u v_uv)) 0.
Definition ay (u : Uniforms) (v_uv : vec2) : R :=
  Rmax (1 - v2y (q u v_uv) * v2y (q u v_uv)) 0.
Definition t (u : Uniforms) (v_uv : vec2) : R := ax u v_uv * ay u v_uv.

Definition om (u : Uniforms) (v_uv : vec2) : R := 1 - t u v_uv.
Definition om2 (u : Uniforms) (v_uv : vec2) : R := om u v_uv * om u v_uv.
Definition om4 (u : Uniforms) (v_uv : vec2) : R := om2 u v_uv * om2 u v_uv.
Definition base (u : Uniforms) (v_uv : vec2) : R :=
  Rmax (1 - om4 u v_uv) 1e-6.

Definition sqrtBase (u : Uniforms) (v_uv : vec2) : R := sqrt (base u v_uv).
Definition ht (u : Uniforms) (v_uv : vec2) : R := sqrt (sqrtBase u v_uv).

Definition hpD (u : Uniforms) (v_uv : vec2) : R :=
  Rmax (sqrtBase u v_uv * ht u v_uv) 0.08.
Definition hp (u : Uniforms) (v_uv : vec2) : R :=
  om2 u v_uv * om u v_uv / hpD u v_uv.

Definition hGrad (u : Uniforms) (v_uv : vec2) : vec2 :=
  smul2 (hp u v_uv)
    (Vec2 (-2 * v2x (p u v_uv) * v2x (invHs2 u) * ay u v_uv)
          (-2 * v2y (p u v_uv) * v2y (invHs2 u) * ax u v_uv)).

(** The argument of [normalize] in the source, [vec3(-hGrad * 50.0, 1.0)]. *)
Definition slope (u : Uniforms) (v_uv : vec2) : vec3 :=
  let g := muls2 (neg2 (hGrad u v_uv)) 50 in
  Vec3 (v2x g) (v2y g) 1.

Definition N (u : Uniforms) (v_uv : vec2) : vec3 :=
  normalize (slope u v_uv).

(** Snell's law refraction. *)

Definition I : vec3 := Vec3 0 0 (-1).
Definition scaleInv (u : Uniforms) : vec2 :=
  smul2 (length2 (res u) * 0.1 * u_dist u) (invRes u).

Definition rG (u : Uniforms) (v_uv : vec2) : vec3 :=
  let rG := refract I (N u v_uv) (1 / u_ior u) in
  if Rlt_dec (dot3 rG rG) 0.001 then I else rG.
Definition uvG (u : Uniforms) (v_uv : vec2) : vec2 :=
  add2 v_uv (mul2 (xy (rG u v_uv)) (scaleInv u)).

(** The background samples: the value of [col] after the
    [if (u_ca > 0.001) ... else ...] statement. *)
Definition col0 (u : Uniforms) (v_uv : vec2) : Fetch vec3 :=
  if Rgt_dec (u_ca u) 0.001 then
    let rR := refract I (N u v_uv) (1 / (u_ior u + u_ca u * 12)) in
    let rB := refract I (N u v_uv)
                (1 / Rmax (u_ior u - u_ca u * 12) 1.001) in
    let rR := if Rlt_dec (dot3 rR rR) 0.001 then rG u v_uv else rR in
    let rB := if Rlt_dec (dot3 rB rB) 0.001 then rG u v_uv else rB in
    cR <- tap (add2 v_uv (mul2 (xy rR) (scaleInv u))) (invRes u) (u_blur u) ;;
    cG <- tap (uvG u v_uv) (invRes u) (u_blur u) ;;
    cB <- tap (add2 v_uv (mul2 (xy rB) (scaleInv u))) (invRes u) (u_blur u) ;;
    ret (Vec3 (v3x cR) (v3y cG) (v3z cB))
  else
    tap (uvG u v_uv) (invRes u) (u_blur u).

(** Fresnel. *)
Definition nz (u : Uniforms) (v_uv : vec2) : R := Rmax (v3z (N u v_uv)) 0.
Definition fBase (u : Uniforms) (v_uv : vec2) : R := 1 - nz u v_uv.
Definition fres (u : Uniforms) (v_uv : vec2) : R :=
  fBase u v_uv * fBase u v_uv * fBase u v_uv * u_fres u.

(** Specular: the multiply chain on [sb]. *)
Definition spec_chain (sb : R) : R :=
  let s2 := sb * sb in
  let s4 := s2 * s2 in
  let s8 := s4 * s4 in
  let s16 := s8 * s8 in
  let s32 := s16 * s16 in
  let s64 := s32 * s32 in
  s64 * s16 * 0.45.
Definition sb (u : Uniforms) (v_uv : vec2) : R :=
  Rmax (dot3 (N u v_uv) HALF_VEC) 0.
Definition spec (u : Uniforms) (v_uv : vec2) : R := spec_chain (sb u v_uv).

(** The lighting, tint and brightening steps applied to the sampled
    colour [col]. *)
Definition lit (u : Uniforms) (v_uv : vec2) (col : vec3) : vec3 :=
  let col := add3 col (smul3 (fres u v_uv) (Vec3 0.85 0.9 1.0)) in
  let col := add3 col (smul3 (spec u v_uv) (Vec3 1.0 0.98 0.95)) in
  let col := mix3 col
               (mul3 col (Vec3 (u_tint_r u) (u_tint_g u) (u_tint_b u)))
               (u_tint_a u) in
  adds3 col ((1 - ht u v_uv) * 0.012).

(** [main]: the value is [cogl_color_out]. *)
Definition main (u : Uniforms) (v_uv : vec2) : Fetch vec4 :=
  col <- col0 u v_uv ;;
  let col := lit u v_uv col in
  bg <- texture2D v_uv ;;
  ret (Vec4 (mix3 bg col (edge u v_uv)) 1.0).

End WithSampler.

End Shader.

(** ** effect.js: LiquidGlassEffect *)

Module Effect.

(** The value of [_tint]: the four-element array [[r, g, b, a]] that
    both the constructor default and [parseColor] build. *)
Record Tint : Type := mkTint { tint0 : R; tint1 : R; tint2 : R; tint3 : R }.

(** The [params] object of [_init]; an absent key is [None]. *)
Record Params : Type := mkParams {
  ior : option R;
  ca : option R;
  dist : option R;
  cr : option R;
  fres : option R;
  blur : option R;
  tint : option Tint
}.

(** The fields of the effect object. *)
Record State : Type := mkState {
  _ior : R;
  _ca : R;
  _dist : R;
  _cr : R;
  _fres : R;
  _blur : R;
  _tint : Tint;
  _dirty : bool;
  _lastW : R;
  _lastH : R
}.

(** The [??] operator. *)
Definition nullish {A : Type} (o : option A) (dflt : A) : A :=
  match o with
  | Some a => a
  | None => dflt
  end.

Definition _init (params : Params) : State :=
  {| _ior := nullish (ior params) 1.45;
     _ca := nullish (ca params) 0.008;
     _dist := nullish (dist params) 0.8;
     _cr := nullish (cr params) 12.0;
     _fres := nullish (fres params) 0.25;
     _blur := nullish (blur params) 2.0;
     _tint := nullish (tint params) (mkTint 1.0 1.0 1.0 0.8);
     _dirty := true;
     _lastW := -1;
     _lastH := -1 |}.

(** [parseFloat] applied to a number prints it and reads it back. *)
Definition parseFloat (x : R) : R := x.

(** One call [set_uniform_value(name, value)]. *)
Definition Upload : Type := (string * R)%type.

Definition le0 (x : R) : bool := if Rle_dec x 0 then true else false.
Definition strict_neq (x y : R) : bool :=
  if Req_dec_T x y then false else true.

(** The actor of the effect, as far as [vfunc_paint_target] reads it:
    [get_width()] and [get_height()]. *)
Record Actor : Type := mkActor { get_width : R; get_height : R }.

(** The result of a paint: the effect object afterwards, the calls
    of [set_uniform_value] in order, and whether the paint went on to
    [super.vfunc_paint_target]. *)
Record Painted : Type := mkPainted {
  after : State;
  uploads : list Upload;
  chained : bool
}.

Definition vfunc_paint_target (get_actor : option Actor) (this : State)
  : Painted :=
  match get_actor with
  | None => mkPainted this [] false
  | Some actor =>
      let w := get_width actor in
      let h := get_height actor in
      if (le0 w || le0 h)%bool then mkPainted this [] false
      else
        let '(this, size_uploads) :=
          if (strict_neq w (_lastW this) || strict_neq h (_lastH this))%bool
          then
            ({| _ior := _ior this; _ca := _ca this; _dist := _dist this;
                _cr := _cr this; _fres := _fres this; _blur := _blur this;
                _tint := _tint this; _dirty := _dirty this;
                _lastW := w; _lastH := h |},
             [("width"%string, parseFloat (w - 1e-6));
              ("height"%string, parseFloat (h - 1e-6))])
          else (this, []) in
        let '(this, param_uploads) :=
          if _dirty this then
            ({| _ior := _ior this; _ca := _ca this; _dist := _dist this;
                _cr := _cr this; _fres := _fres this; _blur := _blur this;
                _tint := _tint this; _dirty := false;
                _lastW := _lastW this; _lastH := _lastH this |},
             [("u_ior"%string, parseFloat (_ior this - 1e-6));
              ("u_ca"%string, parseFloat (_ca this - 1e-6));
              ("u_dist"%string, parseFloat (_dist this - 1e-6));
              ("u_cr"%string, parseFloat (_cr this - 1e-6));
              ("u_fres"%string, parseFloat (_fres this - 1e-6));
              ("u_blur"%string, parseFloat (_blur this - 1e-6));
              ("u_tint_r"%string, parseFloat (tint0 (_tint this) - 1e-6));
              ("u_tint_g"%string, parseFloat (tint1 (_tint this) - 1e-6));
              ("u_tint_b"%string, parseFloat (tint2 (_tint this) - 1e-6));
              ("u_tint_a"%string, parseFloat (tint3 (_tint this) - 1e-6))])
          else (this, []) in
        mkPainted this (size_uploads ++ param_uploads) true
  end.


End Effect.

(** ** The blur kernel, as the specification words it *)

Module Spiral.
Import GLSL.

(** A sample coordinate is clamped per axis to [[invRes, 1 - invRes]]. *)
Definition clamp_uv (uv invRes : vec2) : vec2 :=
  Vec2 (clamp (v2x uv) (v2x invRes) (1 - v2x invRes))
       (clamp (v2y uv) (v2y invRes) (1 - v2y invRes)).

(** For tap [i]: radius [sqrt((i + 0.5) / 12) * blur], angle
    [i * 2.39996323], offset [(cos a, sin a) * r * invRes]. *)
Definition radius (blur : R) (i : nat) : R := sqrt ((INR i + 0.5) / 12) * blur.
Definition angle (i : nat) : R := INR i * 2.39996323.
Definition offset (invRes : vec2) (blur : R) (i : nat) : vec2 :=
  Vec2 (cos (angle i) * radius blur i * v2x invRes)
       (sin (angle i) * radius blur i * v2y invRes).

(** The coordinate of tap [i] around the clamped base coordinate. *)
Definition coord (uv invRes : vec2) (blur : R) (i : nat) : vec2 :=
  clamp_uv (add2 (clamp_uv uv invRes) (offset invRes blur i)) invRes.

Definition sum3 (l : list vec3) : vec3 := fold_right add3 (Vec3 0 0 0) l.

(** The average of the 12 samples. *)
Definition average (tex : vec2 -> vec3) (uv invRes : vec2) (blur : R) : vec3 :=
  divs3 (sum3 (map tex (map (coord uv invRes blur) (seq 0 12)))) 12.

End Spiral.

(** ** The specular lobe, as the specification words it *)

Module Specular.

(** The base raised to the 80th power, scaled by 0.45. *)
Definition pow80 (sb : R) : R := sb ^ 80 * 0.45.

End Specular.

(** ** Uniforms for which every division of [main] is defined *)

Module Domain.
Import Shader.

(** A panel of positive size and a positive index of refraction: the
    divisors [res], [hs] and [u_ior] of [main] are then non-zero. *)
Definition well_defined (u : Uniforms) : Prop :=
  0 < width u /\ 0 < height u /\ 0 < u_ior u.

(** All three channels of [c] lie in [[lo, hi]]. *)
Definition within (lo hi : R) (c : vec3) : Prop :=
  lo <= v3x c <= hi /\ lo <= v3y c <= hi /\ lo <= v3z c <= hi.

(** A coordinate inside the clamping range of [tap]. *)
Definition in_clamp_range (invRes c : vec2) : Prop :=
  v2x invRes <= v2x c <= 1 - v2x invRes /\
  v2y invRes <= v2y c <= 1 - v2y invRes.

End Domain.

(** ** Sample inputs *)

Module Inputs.
Import Shader.

(** A 40 x 40 panel with the default parameters of [_init]. *)
Definition panel40 : Uniforms :=
  {| width := 40; height := 40; u_ior := 1.45; u_ca := 0.008;
     u_dist := 0.8; u_cr := 12; u_fres := 0.25;
     u_tint_r := 1; u_tint_g := 1; u_tint_b := 1; u_tint_a := 0.8;
     u_blur := 2 |}.

(** A 2 x 2 panel with square corners; [f] is the Fresnel strength,
    [i] the index of refraction and [tr, tg, tb, ta] the tint. *)
Definition tiny (i f tr tg tb ta : R) : Uniforms :=
  {| width := 2; height := 2; u_ior := i; u_ca := 0;
     u_dist := 0.8; u_cr := 0; u_fres := f;
     u_tint_r := tr; u_tint_g := tg; u_tint_b := tb; u_tint_a := ta;
     u_blur := 0 |}.

(** [u] with the Fresnel strength replaced by [f], all else held. *)
Definition with_fres (u : Uniforms) (f : R) : Uniforms :=
  {| width := width u; height := height u; u_ior := u_ior u;
     u_ca := u_ca u; u_dist := u_dist u; u_cr := u_cr u; u_fres := f;
     u_tint_r := u_tint_r u; u_tint_g := u_tint_g u;
     u_tint_b := u_tint_b u; u_tint_a := u_tint_a u;
     u_blur := u_blur u |}.

(** The middle of the right edge of a panel. *)
Definition right_edge : vec2 := Vec2 1 0.5.

(** The top right corner of a panel. *)
Definition corner : vec2 := Vec2 1 1.

(** A texture with a different gradient in each channel. *)
Definition gradient (uv : vec2) : vec3 :=
  Vec3 (v2x uv) (v2y uv) (v2x uv + v2y uv).

(** A uniform grey background. *)
Definition grey (uv : vec2) : vec3 := Vec3 0.5 0.5 0.5.

End Inputs.

(** ** JavaScript strings and numbers, as the colour code uses them *)

Module JS.

(** A string is a sequence of code units; code units below 256 are
    modelled.  A number that may be [NaN] is an [option R], with [None]
    for [NaN]. *)

(** [s.replace('#', '')]: the first ['#'] is removed. *)
Fixpoint replace_hash (s : string) : string :=
  match s with
  | EmptyString => EmptyString
  | String c s' =>
      if Ascii.eqb c "#" then s' else String c (replace_hash s')
  end.

(** [s.substring(from, to)] for [from <= to]; both are cut at the
    length of [s]. *)
Definition substring (from to : nat) (s : string) : string :=
  String.substring from (to - from) s.

(** The white space that [parseInt] skips, among the code units below
    256: TAB, LF, VT, FF, CR, SP and NBSP. *)
Definition is_white_space (c : ascii) : bool :=
  match nat_of_ascii c with
  | 9%nat | 10%nat | 11%nat | 12%nat | 13%nat | 32%nat | 160%nat => true
  | _ => false
  end.

Fixpoint trim_start (s : string) : string :=
  match s with
  | EmptyString => EmptyString
  | String c s' => if is_white_space c then trim_start s' else s
  end.

(** The value of a digit of radix 16, in either case. *)
Definition hex_digit (c : ascii) : option Z :=
  match HexString.ascii_to_digit c with
  | Some n => Some (Z.of_N n)
  | None => None
  end.

(** The value of the longest prefix of [s] made of digits, read after
    the digits of value [acc]. *)
Fixpoint parse_digits (s : string) (acc : Z) : Z :=
  match s with
  | EmptyString => acc
  | String c s' =>
      match hex_digit c with
      | Some dgt => parse_digits s' (16 * acc + dgt)
      | None => acc
      end
  end.

Definition starts_with_digit (s : string) : bool :=
  match s with
  | EmptyString => false
  | String c _ =>
      match hex_digit c with
      | Some _ => true
      | None => false
      end
  end.

(** [parseInt(s, 16)]: leading white space, an optional sign, an
    optional [0x] or [0X], then the digits up to the first code unit
    that is not one; [NaN] when there is no digit. *)
Definition parseInt16 (s : string) : option Z :=
  let s := trim_start s in
  let '(sign, s) :=
    match s with
    | String "-" s' => ((-1)%Z, s')
    | String "+" s' => (1%Z, s')
    | _ => (1%Z, s)
    end in
  let s :=
    match s with
    | String "0" (String "x" s') => s'
    | String "0" (String "X" s') => s'
    | _ => s
    end in
  if starts_with_digit s then Some (sign * parse_digits s 0)%Z else None.

(** [n / 255] for the result [n] of [parseInt]. *)
Definition div255 (n : option Z) : option R :=
  match n with
  | Some z => Some (IZR z / 255)
  | None => None
  end.

(** [Math.round]: the nearest integer, halves rounded up. *)
Definition Math_round (x : R) : Z := Int_part (x + 0.5).

(** [n.toString(16)] for an integer [n]. *)
Definition toString16 (n : Z) : string :=
  match n with
  | Z0 => "0"
  | Zpos q => HexString.Raw.of_pos q ""
  | Zneg q => String "-" (HexString.Raw.of_pos q "")
  end.

(** [s.padStart(2, '0')]. *)
Definition padStart2 (s : string) : string :=
  match String.length s with
  | O => "00"
  | S O => String "0" s
  | _ => s
  end.

(** The code units below 256, and the digits that [toString(16)]
    prints. *)
Definition all_code_units : list ascii := map ascii_of_nat (seq 0 256).

Definition lower_hex (c : ascii) : bool :=
  existsb (Ascii.eqb c) (list_ascii_of_string "0123456789abcdef").

(** The channel value that two digits of values [a] and [b] stand for. *)
Definition channel (a b : Z) : R := IZR (16 * a + b) / 255.

(** The channel value after a trip through [Math.round(x * 255)]. *)
Definition quantise (x : R) : R := IZR (Math_round (x * 255)) / 255.

(** The strings of six and of eight code units. *)
Definition hex6 (c1 c2 c3 c4 c5 c6 : ascii) : string :=
  String c1 (String c2 (String c3 (String c4 (String c5 (String c6 ""))))).
Definition hex8 (c1 c2 c3 c4 c5 c6 c7 c8 : ascii) : string :=
  String c1 (String c2 (String c3 (String c4 (String c5 (String c6
    (String c7 (String c8 ""))))))).

(** Checks on one or two code units, run over all of them. *)
Definition check_digit (c : ascii) : bool :=
  match hex_digit c with
  | Some a => (0 <=? a)%Z && (a <=? 15)%Z && negb (Ascii.eqb c "#")
  | None => negb (lower_hex c)
  end.

Definition check_parse (c1 c2 : ascii) : bool :=
  match hex_digit c1, hex_digit c2 with
  | Some a, Some b =>
      match parseInt16 (String c1 (String c2 "")) with
      | Some n => (n =? 16 * a + b)%Z
      | None => false
      end
  | _, _ => true
  end.

Definition check_print (c1 c2 : ascii) : bool :=
  if lower_hex c1 && lower_hex c2 then
    match parseInt16 (String c1 (String c2 "")) with
    | Some n => String.eqb (padStart2 (toString16 n)) (String c1 (String c2 ""))
    | None => false
    end
  else true.

Definition check_byte (n : nat) : bool :=
  match padStart2 (toString16 (Z.of_nat n)) with
  | String c1 (String c2 EmptyString) =>
      lower_hex c1 && lower_hex c2
      && match parseInt16 (String c1 (String c2 "")) with
         | Some m => (m =? Z.of_nat n)%Z
         | None => false
         end
  | _ => false
  end.

End JS.

(** ** effect.js: parseColor and the property setters *)

Module EffectSetters.
Import Effect.

(** [parseColor(hex)]: the array [[r, g, b, a]]. *)
Definition parseColor (hex : string) : list (option R) :=
  let hex := JS.replace_hash hex in
  let r := JS.div255 (JS.parseInt16 (JS.substring 0 2 hex)) in
  let g := JS.div255 (JS.parseInt16 (JS.substring 2 4 hex)) in
  let b := JS.div255 (JS.parseInt16 (JS.substring 4 6 hex)) in
  let a := if (8 <=? String.length hex)%nat
           then JS.div255 (JS.parseInt16 (JS.substring 6 8 hex))
           else Some 1.0 in
  [r; g; b; a].

Definition set_ior (v : R) (this : State) : State * bool :=
  if Req_dec_T v (_ior this) then (this, false)
  else ({| _ior := v; _ca := _ca this; _dist := _dist this;
           _cr := _cr this; _fres := _fres this; _blur := _blur this;
           _tint := _tint this; _dirty := true;
           _lastW := _lastW this; _lastH := _lastH this |}, true).

Definition set_ca (v : R) (this : State) : State * bool :=
  if Req_dec_T v (_ca this) then (this, false)
  else ({| _ior := _ior this; _ca := v; _dist := _dist this;
           _cr := _cr this; _fres := _fres this; _blur := _blur this;
           _tint := _tint this; _dirty := true;
           _lastW := _lastW this; _lastH := _lastH this |}, true).

Definition set_dist (v : R) (this : State) : State * bool :=
  if Req_dec_T v (_dist this) then (this, false)
  else ({| _ior := _ior this; _ca := _ca this; _dist := v;
           _cr := _cr this; _fres := _fres this; _blur := _blur this;
           _tint := _tint this; _dirty := true;
           _lastW := _lastW this; _lastH := _lastH this |}, true).

Definition set_cr (v : R) (this : State) : State * bool :=
  if Req_dec_T v (_cr this) then (this, false)
  else ({| _ior := _ior this; _ca := _ca this; _dist := _dist this;
           _cr := v; _fres := _fres this; _blur := _blur this;
           _tint := _tint this; _dirty := true;
           _lastW := _lastW this; _lastH := _lastH this |}, true).

Definition set_fres (v : R) (this : State) : State * bool :=
  if Req_dec_T v (_fres this) then (this, false)
  else ({| _ior := _ior this; _ca := _ca this; _dist := _dist this;
           _cr := _cr this; _fres := v; _blur := _blur this;
           _tint := _tint this; _dirty := true;
           _lastW := _lastW this; _lastH := _lastH this |}, true).

Definition set_blur (v : R) (this : State) : State * bool :=
  if Req_dec_T v (_blur this) then (this, false)
  else ({| _ior := _ior this; _ca := _ca this; _dist := _dist this;
           _cr := _cr this; _fres := _fres this; _blur := v;
           _tint := _tint this; _dirty := true;
           _lastW := _lastW this; _lastH := _lastH this |}, true).

(** The array of [parseColor] as a [Tint], when no channel is [NaN]. *)
Definition tint_of (channels : list (option R)) : option Tint :=
  match channels with
  | [Some r; Some g; Some b; Some a] => Some (mkTint r g b a)
  | _ => None
  end.

(** [set tintColor(hex)].  The result is [None] when a channel parses
    as [NaN], which a [Tint] cannot hold. *)
Definition set_tintColor (hex : string) (this : State)
  : option (State * bool) :=
  match tint_of (parseColor hex) with
  | Some tint =>
      Some ({| _ior := _ior this; _ca := _ca this; _dist := _dist this;
               _cr := _cr this; _fres := _fres this; _blur := _blur this;
               _tint := tint; _dirty := true;
               _lastW := _lastW this; _lastH := _lastH this |}, true)
  | None => None
  end.

(** The six numeric settings, to speak of their setters together. *)
Inductive Setting : Type := Ior | Ca | Dist | Cr | Fres | Blur.

Definition set (k : Setting) : R -> State -> State * bool :=
  match k with
  | Ior => set_ior
  | Ca => set_ca
  | Dist => set_dist
  | Cr => set_cr
  | Fres => set_fres
  | Blur => set_blur
  end.

Definition field (k : Setting) : State -> R :=
  match k with
  | Ior => _ior
  | Ca => _ca
  | Dist => _dist
  | Cr => _cr
  | Fres => _fres
  | Blur => _blur
  end.

Definition uniform (k : Setting) : string :=
  match k with
  | Ior => "u_ior"
  | Ca => "u_ca"
  | Dist => "u_dist"
  | Cr => "u_cr"
  | Fres => "u_fres"
  | Blur => "u_blur"
  end.

End EffectSetters.

(** ** The preferences window: the colour button *)

Module Prefs.

(** [Gdk.RGBA], as far as the code reads and writes it. *)
Record RGBA : Type := mkRGBA {
  red : option R;
  green : option R;
  blue : option R;
  alpha : option R
}.

Definition _hexToRgba (hex : string) : RGBA :=
  let hex := JS.replace_hash hex in
  {| red := JS.div255 (JS.parseInt16 (JS.substring 0 2 hex));
     green := JS.div255 (JS.parseInt16 (JS.substring 2 4 hex));
     blue := JS.div255 (JS.parseInt16 (JS.substring 4 6 hex));
     alpha := if (8 <=? String.length hex)%nat
              then JS.div255 (JS.parseInt16 (JS.substring 6 8 hex))
              else Some 1.0 |}.

(** [Math.round(c * 255).toString(16).padStart(2, '0')]; [NaN] prints
    as ["NaN"]. *)
Definition channel_hex (c : option R) : string :=
  match c with
  | Some x => JS.padStart2 (JS.toString16 (JS.Math_round (x * 255)))
  | None => "NaN"
  end.

Definition _rgbaToHex (c : RGBA) : string :=
  let r := channel_hex (red c) in
  let g := channel_hex (green c) in
  let b := channel_hex (blue c) in
  let a := channel_hex (alpha c) in
  ("#" ++ r ++ g ++ b ++ a)%string.

End Prefs.

(** ** panel.js: the tint parser and the clip of the background widget *)

Module Panel.

Definition _parseTint (hex : string) : list (option R) :=
  let hex := JS.replace_hash hex in
  let r := JS.div255 (JS.parseInt16 (JS.substring 0 2 hex)) in
  let g := JS.div255 (JS.parseInt16 (JS.substring 2 4 hex)) in
  let b := JS.div255 (JS.parseInt16 (JS.substring 4 6 hex)) in
  let a := if (8 <=? String.length hex)%nat
           then JS.div255 (JS.parseInt16 (JS.substring 6 8 hex))
           else Some 1.0 in
  [r; g; b; a].

(** The numbers of [_updateClip].  The positions and sizes of actors
    that are not allocated yet can be [NaN], and the function tests for
    it, so here a JavaScript number is a real, an infinity or [NaN].
    The sum, the difference and the half of reals are the exact ones;
    with an infinity or [NaN] they are those of IEEE 754. *)
Inductive number : Type :=
| Finite (x : R)
| Infinity
| NegInfinity
| NaN.

(** [a + b] *)
Definition num_add (a b : number) : number :=
  match a, b with
  | Finite x, Finite y => Finite (x + y)
  | Finite _, Infinity => Infinity
  | Finite _, NegInfinity => NegInfinity
  | Infinity, Finite _ => Infinity
  | Infinity, Infinity => Infinity
  | Infinity, NegInfinity => NaN
  | NegInfinity, Finite _ => NegInfinity
  | NegInfinity, Infinity => NaN
  | NegInfinity, NegInfinity => NegInfinity
  | NaN, _ => NaN
  | _, NaN => NaN
  end.

(** [a - b] *)
Definition num_sub (a b : number) : number :=
  match a, b with
  | Finite x, Finite y => Finite (x - y)
  | Finite _, Infinity => NegInfinity
  | Finite _, NegInfinity => Infinity
  | Infinity, Finite _ => Infinity
  | Infinity, Infinity => NaN
  | Infinity, NegInfinity => Infinity
  | NegInfinity, Finite _ => NegInfinity
  | NegInfinity, Infinity => NegInfinity
  | NegInfinity, NegInfinity => NaN
  | NaN, _ => NaN
  | _, NaN => NaN
  end.

(** [a / 2] *)
Definition num_half (a : number) : number :=
  match a with
  | Finite x => Finite (x / 2)
  | Infinity => Infinity
  | NegInfinity => NegInfinity
  | NaN => NaN
  end.

(** [a > 0]: false for [NaN]. *)
Definition num_gt0 (a : number) : bool :=
  match a with
  | Finite x => if Rgt_dec x 0 then true else false
  | Infinity => true
  | NegInfinity => false
  | NaN => false
  end.

(** The global [isFinite], on a number. *)
Definition isFinite (a : number) : bool :=
  match a with
  | Finite _ => true
  | _ => false
  end.

(** The actors [_updateClip] reads: the panel, its parent [panelBox]
    with the position of the parent of [panelBox] when it has one, and
    the primary monitor. *)
Record PanelActor : Type :=
  mkPanelActor { panel_width : number; panel_height : number }.
Record Box : Type := mkBox {
  box_size : number * number;
  box_position : number * number;
  box_parent : option (number * number)
}.
Record Monitor : Type := mkMonitor { monitor_x : number; monitor_y : number }.

(** [_bgWidget], as far as [_updateClip] writes it: the clip rectangle
    and the position. *)
Record Widget : Type := mkWidget {
  clip : option (number * number * number * number);
  widget_x : number;
  widget_y : number
}.

(** [_updateClip]: the widget afterwards.  Each [return] of the source
    leaves the widget as it was: the one for a size that is not
    [> 0], and the one for a clip origin or a widget position that is
    not finite. *)
Definition _updateClip (bgWidget : option Widget) (panel : PanelActor)
           (panelBox : option Box) (monitor : option Monitor)
  : option Widget :=
  match bgWidget with
  | None => None
  | Some widget =>
      match panelBox with
      | None => Some widget
      | Some box =>
          match monitor with
          | None => Some widget
          | Some mon =>
              let '(boxW, boxH) := box_size box in
              if (negb (num_gt0 boxW) || negb (num_gt0 boxH)
                  || negb (num_gt0 (panel_width panel))
                  || negb (num_gt0 (panel_height panel)))%bool
              then Some widget
              else
                let '(bx, by_) := box_position box in
                let '(px, py) :=
                  match box_parent box with
                  | Some pos => pos
                  | None => (Finite 0, Finite 0)
                  end in
                let clipX :=
                  num_add (num_sub (num_add bx px) (monitor_x mon))
                          (num_half (num_sub boxW (panel_width panel))) in
                let clipY :=
                  num_add (num_sub (num_add by_ py) (monitor_y mon))
                          (num_half (num_sub boxH (panel_height panel))) in
                let wx :=
                  num_sub (num_half (num_sub boxW (panel_width panel))) clipX in
                let wy :=
                  num_sub (num_half (num_sub boxH (panel_height panel))) clipY in
                if (negb (isFinite clipX) || negb (isFinite clipY)
                    || negb (isFinite wx) || negb (isFinite wy))%bool
                then Some widget
                else
                  Some {| clip := Some (clipX, clipY,
                                        panel_width panel, panel_height panel);
                          widget_x := wx;
                          widget_y := num_add (Finite 0.5) wy |}
          end
      end
  end.

(** The state in which [_updateClip] has something to do: every size is
    [> 0], and the sizes, the positions of the box and of its parent
    and the origin of the monitor are all finite. *)
Definition allocated (panel : PanelActor) (box : Box) (mon : Monitor) : bool :=
  (num_gt0 (fst (box_size box)) && num_gt0 (snd (box_size box))
   && num_gt0 (panel_width panel) && num_gt0 (panel_height panel)
   && isFinite (fst (box_size box)) && isFinite (snd (box_size box))
   && isFinite (panel_width panel) && isFinite (panel_height panel)
   && isFinite (fst (box_position box)) && isFinite (snd (box_position box))
   && match box_parent box with
      | Some (px, py) => isFinite px && isFinite py
      | None => true
      end
   && isFinite (monitor_x mon) && isFinite (monitor_y mon))%bool.

End Panel.

(** * Properties of the shader *)

Module ShaderFacts.
Import GLSL Shader.

(** ** Equality of vectors *)

Lemma vec2_eq (a b c e : R) : a = c -> b = e -> Vec2 a b = Vec2 c e.
Proof. intros -> ->; reflexivity. Qed.

Lemma vec3_eq (a b c a' b' c' : R) :
  a = a' -> b = b' -> c = c' -> Vec3 a b c = Vec3 a' b' c'.
Proof. intros -> -> ->; reflexivity. Qed.

Lemma vec3_eta (v : vec3) : Vec3 (v3x v) (v3y v) (v3z v) = v.
Proof. destruct v; reflexivity. Qed.

(** ** The built-ins *)

Lemma clamp_above (x lo hi : R) : lo <= hi -> hi <= x -> clamp x lo hi = hi.
Proof.
  intros Hlh Hx. unfold clamp.
  rewrite (Rmax_left x lo) by lra.
  apply Rmin_right; assumption.
Qed.

Lemma clamp_range (x lo hi : R) : lo <= hi -> lo <= clamp x lo hi <= hi.
Proof.
  intros Hlh. unfold clamp.
  apply Rmin_case_strong; apply Rmax_case_strong; intros; lra.
Qed.

Lemma clamp_id (x lo hi : R) : lo <= x <= hi -> clamp x lo hi = x.
Proof.
  intros [Hl Hh]. unfold clamp.
  rewrite (Rmax_left x lo) by assumption.
  apply Rmin_left; assumption.
Qed.

Lemma smoothstep_above (x : R) : 0.5 <= x -> smoothstep (-1.5) 0.5 x = 1.
Proof.
  intros Hx. unfold smoothstep.
  rewrite clamp_above; lra.
Qed.

Lemma smoothstep_range (e0 e1 x : R) : 0 <= smoothstep e0 e1 x <= 1.
Proof.
  unfold smoothstep.
  pose proof (clamp_range ((x - e0) / (e1 - e0)) 0 1 ltac:(lra)) as H.
  set (c := clamp _ 0 1) in *.
  assert (0 <= c * c) by nra.
  assert (0 <= (1 - c) * (1 - c)) by nra.
  split; nra.
Qed.

Lemma smoothstep_below_one (x : R) : x < 0.5 -> smoothstep (-1.5) 0.5 x < 1.
Proof.
  intros Hx. unfold smoothstep.
  assert (Hc : 0 <= clamp ((x - -1.5) / (0.5 - -1.5)) 0 1 < 1).
  { unfold clamp. apply Rmin_case_strong; apply Rmax_case_strong; intros; lra. }
  set (c := clamp _ 0 1) in *.
  assert (0 < (1 - c) * (1 - c)) by nra.
  nra.
Qed.

Lemma mix_zero (x y : R) : mix x y 0 = x.
Proof. unfold mix; ring. Qed.

Lemma mix3_zero (x y : vec3) : mix3 x y 0 = x.
Proof. unfold mix3. rewrite !mix_zero. apply vec3_eta. Qed.

Lemma Rabs_bound (x b : R) : Rabs x <= b -> - b <= x <= b.
Proof. unfold Rabs. destruct (Rcase_abs x); intros; lra. Qed.

Lemma normalize_dot (v : vec3) :
  0 < dot3 v v -> dot3 (normalize v) (normalize v) = 1.
Proof.
  intros Hv. unfold normalize, length3.
  assert (Hsq : sqrt (dot3 v v) * sqrt (dot3 v v) = dot3 v v)
    by (apply sqrt_sqrt; lra).
  assert (HL : 0 < sqrt (dot3 v v)) by (apply sqrt_lt_R0; exact Hv).
  set (L := sqrt (dot3 v v)) in *.
  destruct v as [a b c]. unfold divs3, dot3 in *. simpl in *.
  transitivity ((a * a + b * b + c * c) / (L * L)).
  - field. lra.
  - rewrite Hsq. field. lra.
Qed.

(** ** The reads and the value of a sequence *)

Lemma value_bind {A B : Type} (m : Fetch A) (k : A -> Fetch B) :
  value (bind m k) = value (k (value m)).
Proof.
  unfold value, bind. destruct m as [a l1]. simpl.
  destruct (k a); reflexivity.
Qed.

Lemma reads_bind {A B : Type} (m : Fetch A) (k : A -> Fetch B) :
  reads (bind m k) = reads m ++ reads (k (value m)).
Proof.
  unfold reads, value, bind. destruct m as [a l1]. simpl.
  destruct (k a); reflexivity.
Qed.

Lemma value_main (tex : vec2 -> vec3) (u : Uniforms) (v_uv : vec2) :
  value (main tex u v_uv)
  = Vec4 (mix3 (tex v_uv) (lit u v_uv (value (col0 tex u v_uv))) (edge u v_uv))
         1.0.
Proof. unfold main. rewrite !value_bind. reflexivity. Qed.

(** ** Edge containment *)

Lemma edge_outside (u : Uniforms) (v_uv : vec2) :
  0.5 <= d u v_uv -> edge u v_uv = 0.
Proof. intros Hd. unfold edge. rewrite smoothstep_above by assumption. ring. Qed.

(** C1.  Where the rounded-rectangle signed distance is above 1, the
    output colour is the background sample at the pixel's own
    coordinate, with alpha 1, whatever the uniforms are: the edge mask
    is 0 there and [mix(bg, col, 0)] is [bg]. *)
Theorem edge_containment (tex : vec2 -> vec3) (u : Uniforms) (v_uv : vec2) :
  1 < d u v_uv ->
  edge u v_uv = 0 /\ value (main tex u v_uv) = Vec4 (tex v_uv) 1.
Proof.
  intros Hd.
  assert (He : edge u v_uv = 0) by (apply edge_outside; lra).
  split; [exact He|].
  rewrite value_main, He, mix3_zero. f_equal. lra.
Qed.

Ltac eval_minmax :=
  repeat match goal with
  | |- context [Rmin ?a ?b] =>
      first [rewrite (Rmin_left a b) by lra | rewrite (Rmin_right a b) by lra]
  | |- context [Rmax ?a ?b] =>
      first [rewrite (Rmax_left a b) by lra | rewrite (Rmax_right a b) by lra]
  | |- context [Rabs ?a] =>
      first [rewrite (Rabs_right a) by lra | rewrite (Rabs_left1 a) by lra]
  end.

Lemma sqrt_above (a x : R) : 0 <= a -> a * a < x -> a < sqrt x.
Proof.
  intros Ha Hx. rewrite <- (sqrt_square a) at 1 by assumption.
  apply sqrt_lt_1_alt. nra.
Qed.

(** The corner pixel of [panel40] lies outside the rounded corner. *)
Lemma d_panel40_corner : 1 < d Inputs.panel40 (Vec2 1 1).
Proof.
  unfold d, sdf, cr, p, hs, res, length2, dot2, maxs2, adds2, sub2, abs2,
    mul2, muls2. simpl.
  eval_minmax.
  assert (13 < sqrt ((40 * 0.5 - 40 * 0.5 + 12) * (40 * 0.5 - 40 * 0.5 + 12)
                     + (40 * 0.5 - 40 * 0.5 + 12) * (40 * 0.5 - 40 * 0.5 + 12)))
    by (apply sqrt_above; lra).
  replace (1 * 40 - 40 * 0.5) with (40 * 0.5) by lra.
  lra.
Qed.

Lemma edge_containment_witness :
  1 < d Inputs.panel40 (Vec2 1 1) /\
  value (main Inputs.gradient Inputs.panel40 (Vec2 1 1)) = Vec4 (Vec3 1 1 (1 + 1)) 1.
Proof.
  split; [exact d_panel40_corner|].
  apply (edge_containment Inputs.gradient Inputs.panel40 (Vec2 1 1)).
  exact d_panel40_corner.
Defined.

(** ** The normal at the centre *)

(** Where the height gradient vanishes the normal points at the viewer. *)
Lemma N_flat (u : Uniforms) (v_uv : vec2) :
  hGrad u v_uv = Vec2 0 0 -> N u v_uv = Vec3 0 0 1.
Proof.
  intros Hg.
  assert (Hs : slope u v_uv = Vec3 0 0 1).
  { unfold slope, muls2, neg2. rewrite Hg. simpl. apply vec3_eq; ring. }
  unfold N, normalize, divs3, length3, dot3. rewrite Hs. simpl.
  replace (0 * 0 + 0 * 0 + 1 * 1) with 1 by ring.
  rewrite sqrt_1. apply vec3_eq; field.
Qed.

Section Centre.
Variables (u : Uniforms) (v_uv : vec2).
Hypothesis centre : p u v_uv = Vec2 0 0.

Lemma q_centre : q u v_uv = Vec2 0 0.
Proof.
  unfold q, min2, div2, abs2. rewrite centre. simpl.
  rewrite Rabs_R0. unfold Rdiv. rewrite !Rmult_0_l.
  rewrite Rmin_left by lra. reflexivity.
Qed.

Lemma ax_centre : ax u v_uv = 1.
Proof. unfold ax. rewrite q_centre. simpl. rewrite Rmax_left by lra. ring. Qed.

Lemma ay_centre : ay u v_uv = 1.
Proof. unfold ay. rewrite q_centre. simpl. rewrite Rmax_left by lra. ring. Qed.

Lemma t_centre : t u v_uv = 1.
Proof. unfold t. rewrite ax_centre, ay_centre. ring. Qed.

Lemma om_centre : om u v_uv = 0.
Proof. unfold om. rewrite t_centre. ring. Qed.

Lemma base_centre : base u v_uv = 1.
Proof.
  unfold base, om4, om2. rewrite om_centre.
  rewrite Rmax_left by lra. ring.
Qed.

Lemma ht_centre : ht u v_uv = 1.
Proof.
  unfold ht, sqrtBase. rewrite base_centre, sqrt_1. apply sqrt_1.
Qed.

Lemma hp_centre : hp u v_uv = 0.
Proof.
  unfold hp, om2. rewrite om_centre. unfold Rdiv. ring.
Qed.

Lemma hGrad_centre : hGrad u v_uv = Vec2 0 0.
Proof.
  unfold hGrad, smul2. rewrite hp_centre. simpl.
  apply vec2_eq; ring.
Qed.

Lemma N_centre : N u v_uv = Vec3 0 0 1.
Proof. apply N_flat. exact hGrad_centre. Qed.

End Centre.

(** C2.  At the centre of the rectangle, [p = (0, 0)], the dome
    parameter [t] is 1, the height gradient is the zero vector and the
    normal is [(0, 0, 1)], for every positive half-extent. *)
Theorem normal_at_centre (u : Uniforms) (v_uv : vec2) :
  0 < v2x (hs u) -> 0 < v2y (hs u) ->
  p u v_uv = Vec2 0 0 ->
  t u v_uv = 1 /\ hGrad u v_uv = Vec2 0 0 /\ N u v_uv = Vec3 0 0 1.
Proof.
  intros _ _ Hp.
  split; [apply t_centre; exact Hp|].
  split; [apply hGrad_centre; exact Hp|apply N_centre; exact Hp].
Qed.

Lemma hs_panel40 : hs Inputs.panel40 = Vec2 20 20.
Proof. unfold hs, res, muls2. simpl. apply vec2_eq; lra. Qed.

Lemma p_panel40_centre : p Inputs.panel40 (Vec2 0.5 0.5) = Vec2 0 0.
Proof. unfold p, res, sub2, mul2, muls2. simpl. apply vec2_eq; lra. Qed.

Lemma normal_at_centre_witness :
  N Inputs.panel40 (Vec2 0.5 0.5) = Vec3 0 0 1.
Proof.
  apply (normal_at_centre Inputs.panel40 (Vec2 0.5 0.5)).
  - rewrite hs_panel40. simpl. lra.
  - rewrite hs_panel40. simpl. lra.
  - exact p_panel40_centre.
Defined.

(** ** Ranges of the dome quantities *)

Section Dome.
Variables (u : Uniforms) (v_uv : vec2).

Lemma ax_range : 0 <= ax u v_uv <= 1.
Proof.
  unfold ax. set (qx := v2x (q u v_uv)).
  assert (0 <= qx * qx) by nra.
  apply Rmax_case_strong; intros; lra.
Qed.

Lemma ay_range : 0 <= ay u v_uv <= 1.
Proof.
  unfold ay. set (qy := v2y (q u v_uv)).
  assert (0 <= qy * qy) by nra.
  apply Rmax_case_strong; intros; lra.
Qed.

Lemma t_range : 0 <= t u v_uv <= 1.
Proof. unfold t. pose proof ax_range. pose proof ay_range. nra. Qed.

Lemma om_range : 0 <= om u v_uv <= 1.
Proof. unfold om. pose proof t_range. lra. Qed.

Lemma om2_range : 0 <= om2 u v_uv <= 1.
Proof. unfold om2. pose proof om_range. nra. Qed.

Lemma om4_range : 0 <= om4 u v_uv <= 1.
Proof. unfold om4. pose proof om2_range. nra. Qed.

Lemma base_range : 1e-6 <= base u v_uv <= 1.
Proof.
  unfold base. pose proof om4_range.
  apply Rmax_case_strong; intros; lra.
Qed.

Lemma sqrtBase_range : 0 < sqrtBase u v_uv <= 1.
Proof.
  unfold sqrtBase. pose proof base_range. split.
  - apply sqrt_lt_R0. lra.
  - rewrite <- sqrt_1. apply sqrt_le_1_alt. lra.
Qed.

Lemma ht_range : 0 < ht u v_uv <= 1.
Proof.
  unfold ht. pose proof sqrtBase_range. split.
  - apply sqrt_lt_R0. lra.
  - rewrite <- sqrt_1. apply sqrt_le_1_alt. lra.
Qed.

Lemma hpD_range : 0.08 <= hpD u v_uv <= 1.
Proof.
  unfold hpD. pose proof sqrtBase_range. pose proof ht_range.
  apply Rmax_case_strong; intros; split; try lra; nra.
Qed.

Lemma hp_range : 0 <= hp u v_uv <= 12.5.
Proof.
  unfold hp. pose proof hpD_range as HD. pose proof om_range.
  pose proof om2_range.
  assert (Hn : 0 <= om2 u v_uv * om u v_uv <= 1) by nra.
  set (n := om2 u v_uv * om u v_uv) in *.
  set (D := hpD u v_uv) in *.
  assert (HiD : 0 < / D) by (apply Rinv_0_lt_compat; lra).
  assert (HDi : D * / D = 1) by (apply Rinv_r; lra).
  unfold Rdiv. split; nra.
Qed.

Lemma slope_z : v3z (slope u v_uv) = 1.
Proof. reflexivity. Qed.

Lemma slope_dot : 1 <= dot3 (slope u v_uv) (slope u v_uv).
Proof.
  unfold dot3. rewrite slope_z.
  set (sx := v3x (slope u v_uv)). set (sy := v3y (slope u v_uv)).
  nra.
Qed.

Lemma slope_length : 1 <= length3 (slope u v_uv).
Proof.
  unfold length3. rewrite <- sqrt_1 at 1.
  apply sqrt_le_1_alt. apply slope_dot.
Qed.

Lemma N_dot : dot3 (N u v_uv) (N u v_uv) = 1.
Proof.
  unfold N. apply normalize_dot. pose proof slope_dot. lra.
Qed.

Lemma N_length : length3 (N u v_uv) = 1.
Proof. unfold length3. rewrite N_dot. apply sqrt_1. Qed.

Lemma N_z_range : 0 < v3z (N u v_uv) <= 1.
Proof.
  unfold N, normalize, divs3. simpl. pose proof slope_length as HL.
  set (L := length3 (slope u v_uv)) in *.
  assert (HiL : 0 < / L) by (apply Rinv_0_lt_compat; lra).
  assert (HLi : L * / L = 1) by (apply Rinv_r; lra).
  unfold Rdiv. split; nra.
Qed.

Lemma N_components :
  Rabs (v3x (N u v_uv)) <= 1 /\ Rabs (v3y (N u v_uv)) <= 1.
Proof.
  pose proof N_dot as HD. unfold dot3 in HD.
  set (a := v3x (N u v_uv)) in *.
  set (b := v3y (N u v_uv)) in *.
  set (c := v3z (N u v_uv)) in *.
  split; apply Rabs_le; split; nra.
Qed.

Lemma gradient_bound (h a P W : R) :
  0 <= h <= 12.5 -> 0 <= a <= 1 -> 0 < W * 0.5 ->
  Rabs P <= 1.5 * (W * 0.5) ->
  Rabs (h * (-2 * P * (4 * (1 / W) * (1 / W)) * a)) <= 37.5 / (W * 0.5).
Proof.
  intros Hh Ha HW HP.
  assert (HiW : 0 < / W) by (apply Rinv_0_lt_compat; lra).
  assert (HWi : W * / W = 1) by (apply Rinv_r; lra).
  set (i := / W) in *.
  assert (HPi : -0.75 <= P * i <= 0.75).
  { apply Rabs_bound in HP. split; nra. }
  set (z := P * i) in *.
  assert (Hm : 0 <= h * a <= 12.5) by nra.
  set (m := h * a) in *.
  assert (Hmz : -9.375 <= m * z <= 9.375) by nra.
  replace (h * (-2 * P * (4 * (1 / W) * (1 / W)) * a))
    with (-8 * (m * z) * i) by (unfold m, z, i; field; lra).
  replace (37.5 / (W * 0.5)) with (75 * i)
    by (unfold i, Q2R; simpl; field; lra).
  apply Rabs_le. split; nra.
Qed.

Lemma hGrad_x_bound :
  0 < v2x (hs u) -> Rabs (v2x (p u v_uv)) <= 1.5 * v2x (hs u) ->
  Rabs (v2x (hGrad u v_uv)) <= 37.5 / v2x (hs u).
Proof.
  intros Hhs Hp.
  apply (gradient_bound (hp u v_uv) (ay u v_uv) (v2x (p u v_uv)) (width u)).
  - apply hp_range.
  - apply ay_range.
  - exact Hhs.
  - exact Hp.
Qed.

Lemma hGrad_y_bound :
  0 < v2y (hs u) -> Rabs (v2y (p u v_uv)) <= 1.5 * v2y (hs u) ->
  Rabs (v2y (hGrad u v_uv)) <= 37.5 / v2y (hs u).
Proof.
  intros Hhs Hp.
  apply (gradient_bound (hp u v_uv) (ax u v_uv) (v2y (p u v_uv)) (height u)).
  - apply hp_range.
  - apply ax_range.
  - exact Hhs.
  - exact Hp.
Qed.

End Dome.

(** C3.  For positive half-extents and a position within one and a
    half half-extents of the centre on each axis, every division of
    the estimator has a divisor bounded away from zero ([res] and [hs]
    are positive, [hpD] is at least 0.08 and the length passed to
    [normalize] is at least 1), the argument of each square root is at
    least 1e-6, the gradient is bounded, and the normal has length 1
    (so within 1e-4 of 1), with every component in [[-1, 1]]. *)
Theorem normal_finite_unit (u : Uniforms) (v_uv : vec2) :
  0 < v2x (hs u) -> 0 < v2y (hs u) ->
  Rabs (v2x (p u v_uv)) <= 1.5 * v2x (hs u) ->
  Rabs (v2y (p u v_uv)) <= 1.5 * v2y (hs u) ->
  (0 < v2x (res u) /\ 0 < v2y (res u)) /\
  1e-6 <= base u v_uv /\
  0 < sqrtBase u v_uv /\
  0.08 <= hpD u v_uv /\
  (Rabs (v2x (hGrad u v_uv)) <= 37.5 / v2x (hs u) /\
   Rabs (v2y (hGrad u v_uv)) <= 37.5 / v2y (hs u)) /\
  1 <= length3 (slope u v_uv) /\
  (Rabs (v3x (N u v_uv)) <= 1 /\ Rabs (v3y (N u v_uv)) <= 1 /\
   0 < v3z (N u v_uv) <= 1) /\
  length3 (N u v_uv) = 1 /\
  Rabs (length3 (N u v_uv) - 1) <= 1e-4.
Proof.
  intros Hx Hy Hpx Hpy.
  split. { unfold hs, res, muls2 in *. simpl in *. split; lra. }
  split. { apply base_range. }
  split. { apply sqrtBase_range. }
  split. { apply hpD_range. }
  split. { split; [apply hGrad_x_bound|apply hGrad_y_bound]; assumption. }
  split. { apply slope_length. }
  split. { pose proof (N_components u v_uv) as [Ha Hb].
           pose proof (N_z_range u v_uv). tauto. }
  split. { apply N_length. }
  rewrite N_length. replace (1 - 1) with 0 by ring.
  rewrite Rabs_R0. lra.
Qed.

(** The pixel half-way between the centre and the right edge of
    [panel40]. *)
Lemma p_panel40_right : p Inputs.panel40 (Vec2 0.75 0.5) = Vec2 10 0.
Proof. unfold p, res, sub2, mul2, muls2. simpl. apply vec2_eq; lra. Qed.

Lemma normal_finite_unit_witness :
  length3 (N Inputs.panel40 (Vec2 0.75 0.5)) = 1.
Proof.
  apply (normal_finite_unit Inputs.panel40 (Vec2 0.75 0.5)).
  - rewrite hs_panel40. simpl. lra.
  - rewrite hs_panel40. simpl. lra.
  - rewrite p_panel40_right, hs_panel40. simpl.
    rewrite Rabs_right by lra. lra.
  - rewrite p_panel40_right, hs_panel40. simpl.
    rewrite Rabs_R0. lra.
Defined.

(** ** The middle of the right edge of a 2 x 2 panel *)

Section RightEdge.
Variable u : Uniforms.
Hypothesis Hw : width u = 2.
Hypothesis Hh : height u = 2.

Lemma hs_edge : hs u = Vec2 1 1.
Proof. unfold hs, res, muls2. simpl. rewrite Hw, Hh. apply vec2_eq; lra. Qed.

Lemma p_edge : p u Inputs.right_edge = Vec2 1 0.
Proof.
  unfold p, res, sub2, mul2, muls2. simpl. rewrite Hw, Hh.
  apply vec2_eq; lra.
Qed.

Lemma q_edge : q u Inputs.right_edge = Vec2 1 0.
Proof.
  unfold q, min2, div2, abs2. rewrite p_edge, hs_edge. simpl.
  rewrite Rabs_R0, (Rabs_right 1) by lra.
  apply vec2_eq; eval_minmax; lra.
Qed.

Lemma ax_edge : ax u Inputs.right_edge = 0.
Proof. unfold ax. rewrite q_edge. simpl. eval_minmax. lra. Qed.

Lemma ay_edge : ay u Inputs.right_edge = 1.
Proof. unfold ay. rewrite q_edge. simpl. eval_minmax. lra. Qed.

Lemma om_edge : om u Inputs.right_edge = 1.
Proof. unfold om, t. rewrite ax_edge. ring. Qed.

Lemma base_edge : base u Inputs.right_edge = 1e-6.
Proof. unfold base, om4, om2. rewrite om_edge. eval_minmax. reflexivity. Qed.

Lemma hpD_edge : hpD u Inputs.right_edge = 0.08.
Proof.
  unfold hpD. apply Rmax_right.
  pose proof (ht_range u Inputs.right_edge) as Hht.
  assert (Hs : 0 < sqrtBase u Inputs.right_edge <= 0.08).
  { split; [apply sqrtBase_range|].
    unfold sqrtBase. rewrite base_edge.
    rewrite <- (sqrt_square 0.08) by lra.
    apply sqrt_le_1_alt. lra. }
  nra.
Qed.

Lemma hp_edge : hp u Inputs.right_edge = 12.5.
Proof. unfold hp, om2. rewrite om_edge, hpD_edge. lra. Qed.

Lemma hGrad_edge : hGrad u Inputs.right_edge = Vec2 (-25) 0.
Proof.
  unfold hGrad, smul2, invHs2, invRes, res, mul2, smul2, sdiv2.
  rewrite hp_edge, p_edge, ay_edge, ax_edge. simpl. rewrite Hw.
  apply vec2_eq; lra.
Qed.

Lemma slope_edge : slope u Inputs.right_edge = Vec3 1250 0 1.
Proof.
  unfold slope, muls2, neg2. rewrite hGrad_edge. simpl.
  apply vec3_eq; lra.
Qed.

(** The normal is almost horizontal there. *)
Lemma N_z_edge : 0 < v3z (N u Inputs.right_edge) < 0.001.
Proof.
  split; [apply N_z_range|].
  pose proof (N_dot u Inputs.right_edge) as HD.
  pose proof (N_z_range u Inputs.right_edge) as Hz.
  assert (Hx : v3x (N u Inputs.right_edge) = 1250 * v3z (N u Inputs.right_edge)).
  { unfold N, normalize, divs3. rewrite slope_edge. simpl.
    unfold Rdiv. ring. }
  unfold dot3 in HD. rewrite Hx in HD.
  set (c := v3z (N u Inputs.right_edge)) in *.
  set (b := v3y (N u Inputs.right_edge)) in *.
  nra.
Qed.

Lemma d_edge : u_cr u = 0 -> d u Inputs.right_edge = 0.
Proof.
  intros Hcr. unfold d, cr, sdf. rewrite p_edge, hs_edge, Hcr.
  unfold length2, dot2, maxs2, adds2, sub2, abs2. simpl.
  eval_minmax.
  replace ((1 - 1 + 0) * (1 - 1 + 0) + 0 * 0) with 0 by ring.
  rewrite sqrt_0. ring.
Qed.

Lemma edge_edge : u_cr u = 0 -> edge u Inputs.right_edge = 0.15625.
Proof.
  intros Hcr. unfold edge. rewrite (d_edge Hcr).
  unfold smoothstep. rewrite clamp_id by lra. lra.
Qed.

End RightEdge.

(** ** The corner of a 2 x 2 panel with square corners *)

Section Corner.
Variable u : Uniforms.
Hypothesis Hw : width u = 2.
Hypothesis Hh : height u = 2.

Lemma p_corner : p u Inputs.corner = Vec2 1 1.
Proof.
  unfold p, res, sub2, mul2, muls2. simpl. rewrite Hw, Hh.
  apply vec2_eq; lra.
Qed.

Lemma q_corner : q u Inputs.corner = Vec2 1 1.
Proof.
  unfold q, min2, div2, abs2. rewrite p_corner, (hs_edge u Hw Hh). simpl.
  rewrite (Rabs_right 1) by lra.
  apply vec2_eq; eval_minmax; lra.
Qed.

Lemma ax_corner : ax u Inputs.corner = 0.
Proof. unfold ax. rewrite q_corner. simpl. eval_minmax. lra. Qed.

Lemma ay_corner : ay u Inputs.corner = 0.
Proof. unfold ay. rewrite q_corner. simpl. eval_minmax. lra. Qed.

Lemma hGrad_corner : hGrad u Inputs.corner = Vec2 0 0.
Proof.
  unfold hGrad, smul2. rewrite ax_corner, ay_corner. simpl.
  apply vec2_eq; ring.
Qed.

(** The dome is flat at the corner: the Fresnel base vanishes. *)
Lemma fBase_corner : fBase u Inputs.corner = 0.
Proof.
  unfold fBase, nz. rewrite (N_flat u Inputs.corner hGrad_corner). simpl.
  eval_minmax. ring.
Qed.

Lemma d_corner : u_cr u = 0 -> d u Inputs.corner = 0.
Proof.
  intros Hcr. unfold d, cr, sdf. rewrite p_corner, (hs_edge u Hw Hh), Hcr.
  unfold length2, dot2, maxs2, adds2, sub2, abs2. simpl.
  eval_minmax.
  replace ((1 - 1 + 0) * (1 - 1 + 0) + (1 - 1 + 0) * (1 - 1 + 0)) with 0
    by ring.
  rewrite sqrt_0. ring.
Qed.

End Corner.

(** ** Total internal reflection *)

Lemma uvG_unbent (u : Uniforms) (v_uv : vec2) :
  rG u v_uv = I -> uvG u v_uv = v_uv.
Proof.
  intros HrG. unfold uvG. rewrite HrG.
  destruct v_uv as [x y]. unfold add2, mul2, xy, I. simpl.
  apply vec2_eq; ring.
Qed.

(** A refracted ray has length 1 whenever [refract] does not return the
    zero vector, for a unit normal. *)
Lemma refract_unit (n : vec3) (eta : R) :
  dot3 n n = 1 ->
  0 <= 1 - eta * eta * (1 - dot3 n I * dot3 n I) ->
  dot3 (refract I n eta) (refract I n eta) = 1.
Proof.
  intros Hn Hk. unfold refract.
  destruct (Rlt_dec _ 0) as [Hlt|_]; [lra|].
  pose proof (sqrt_sqrt _ Hk) as Hs.
  set (s := sqrt _) in *.
  destruct n as [a b c]. unfold dot3, sub3, smul3, I in *. simpl in *.
  set (C := eta * (a * 0 + b * 0 + c * -1) + s) in *.
  transitivity (C * C * (a * a + b * b + c * c) + 2 * eta * c * C + eta * eta).
  - ring.
  - rewrite Hn.
    transitivity (s * s + eta * eta * (1 - c * c)).
    + unfold C. ring.
    + rewrite Hs. ring.
Qed.

(** With an index of refraction of at least 1 the fallback is never
    taken: the green ray is the refracted ray, of length 1. *)
Lemma tir_unreachable (u : Uniforms) (v_uv : vec2) :
  1 <= u_ior u ->
  rG u v_uv = refract I (N u v_uv) (1 / u_ior u).
Proof.
  intros Hior.
  assert (Hunit : dot3 (refract I (N u v_uv) (1 / u_ior u))
                       (refract I (N u v_uv) (1 / u_ior u)) = 1).
  { apply refract_unit; [apply N_dot|].
    pose proof (N_z_range u v_uv) as Hz.
    assert (Hd : dot3 (N u v_uv) I = - v3z (N u v_uv))
      by (unfold dot3, I; simpl; ring).
    rewrite Hd.
    assert (Hi : 0 < / u_ior u <= 1).
    { split; [apply Rinv_0_lt_compat; lra|].
      rewrite <- Rinv_1. apply Rinv_le_contravar; lra. }
    unfold Rdiv. rewrite Rmult_1_l.
    set (eta := / u_ior u) in *. set (c := v3z (N u v_uv)) in *.
    assert (0 <= eta * eta <= 1) by nra.
    assert (0 <= 1 - c * c <= 1) by nra.
    nra. }
  unfold rG. destruct (Rlt_dec _ 0.001) as [Hlt|_]; [lra|reflexivity].
Qed.

(** C4.  When the squared length of [refract(I, N, 1 / u_ior)] is
    below 0.001, the green ray is the incident ray [(0, 0, -1)] and the
    green sampling coordinate is the pixel's own coordinate. *)
Theorem tir_fallback (u : Uniforms) (v_uv : vec2) :
  dot3 (refract I (N u v_uv) (1 / u_ior u))
       (refract I (N u v_uv) (1 / u_ior u)) < 0.001 ->
  rG u v_uv = Vec3 0 0 (-1) /\ uvG u v_uv = v_uv.
Proof.
  intros Htir.
  assert (HrG : rG u v_uv = I).
  { unfold rG. destruct (Rlt_dec _ 0.001) as [_|Hge];
      [reflexivity|contradiction]. }
  split; [exact HrG|apply uvG_unbent; exact HrG].
Qed.

(** With an index of refraction of 0.5 the ray through the middle of
    the right edge of a 2 x 2 panel is totally reflected. *)
Lemma refract_edge_tir :
  refract I (N (Inputs.tiny 0.5 0.25 1 1 1 0.8) Inputs.right_edge)
          (1 / u_ior (Inputs.tiny 0.5 0.25 1 1 1 0.8))
  = Vec3 0 0 0.
Proof.
  pose proof (N_z_edge (Inputs.tiny 0.5 0.25 1 1 1 0.8) eq_refl eq_refl)
    as Hz.
  unfold refract. simpl u_ior.
  set (n := N _ _) in *.
  assert (Hd : dot3 n I = - v3z n) by (unfold dot3, I; simpl; ring).
  rewrite Hd.
  replace (1 / 0.5) with 2 by lra.
  destruct (Rlt_dec _ 0) as [_|Hk]; [reflexivity|].
  exfalso. apply Hk. nra.
Qed.

Lemma tir_fallback_witness :
  uvG (Inputs.tiny 0.5 0.25 1 1 1 0.8) Inputs.right_edge = Inputs.right_edge.
Proof.
  apply (tir_fallback (Inputs.tiny 0.5 0.25 1 1 1 0.8) Inputs.right_edge).
  rewrite refract_edge_tir. unfold dot3. simpl. lra.
Defined.

(** ** The blur taps *)

Lemma add3_assoc (a b c : vec3) : add3 (add3 a b) c = add3 a (add3 b c).
Proof. unfold add3. simpl. apply vec3_eq; ring. Qed.

(** The coordinate read by iteration [i] of the loop is the one the
    specification gives for tap [i]. *)
Lemma loop_coord (uv invRes : vec2) (blur : R) (i : nat) :
  clamp2 (add2 (clamp2 uv invRes (ssub2 1 invRes))
               (mul2 (muls2 (Vec2 (cos (INR i * GA)) (sin (INR i * GA)))
                            (sqrt ((INR i + 0.5) * INV_N) * blur))
                     invRes))
         invRes (ssub2 1 invRes)
  = Spiral.coord uv invRes blur i.
Proof.
  unfold Spiral.coord, Spiral.clamp_uv, Spiral.offset, Spiral.radius,
    Spiral.angle, clamp2, add2, mul2, muls2, ssub2, GA, INV_N. simpl.
  replace ((INR i + 0.5) * (1 / 12)) with ((INR i + 0.5) / 12) by lra.
  reflexivity.
Qed.

Lemma tap_loop_spec (tex : vec2 -> vec3) (uv invRes : vec2) (blur : R)
      (n i : nat) (s : vec3) :
  tap_loop tex n i (clamp2 uv invRes (ssub2 1 invRes)) invRes blur s
  = (add3 s (Spiral.sum3
               (map tex (map (Spiral.coord uv invRes blur) (seq i n)))),
     map (Spiral.coord uv invRes blur) (seq i n)).
Proof.
  revert i s. induction n as [|n IH]; intros i s.
  - simpl. unfold ret. f_equal.
    destruct s as [a b c]. unfold add3. simpl. apply vec3_eq; ring.
  - cbn [tap_loop seq map Spiral.sum3 fold_right].
    unfold texture2D, bind. rewrite loop_coord, IH.
    fold (Spiral.sum3 (map tex (map (Spiral.coord uv invRes blur)
                                    (seq (S i) n)))).
    rewrite add3_assoc. reflexivity.
Qed.

(** C6.  With [blur >= 0.5], [tap] reads exactly the 12 coordinates of
    the golden-angle spiral, in order, each clamped per axis to
    [[invRes, 1 - invRes]] around the clamped base coordinate, and
    returns the average of the 12 samples. *)
Theorem blur_spiral (tex : vec2 -> vec3) (uv invRes : vec2) (blur : R) :
  0.5 <= blur ->
  value (tap tex uv invRes blur) = Spiral.average tex uv invRes blur /\
  reads (tap tex uv invRes blur)
  = map (Spiral.coord uv invRes blur) (seq 0 12) /\
  List.length (reads (tap tex uv invRes blur)) = 12%nat.
Proof.
  intros Hblur.
  assert (Htap : tap tex uv invRes blur
                 = (Spiral.average tex uv invRes blur,
                    map (Spiral.coord uv invRes blur) (seq 0 12))).
  { unfold tap. destruct (Rlt_dec blur 0.5) as [Hlt|_]; [lra|].
    rewrite tap_loop_spec. unfold bind, ret. rewrite app_nil_r.
    f_equal. unfold Spiral.average.
    set (S := Spiral.sum3 _). destruct S as [a b c].
    unfold muls3, divs3, add3, INV_N. simpl. apply vec3_eq; lra. }
  rewrite Htap. unfold value, reads. cbn [fst snd].
  split; [reflexivity|]. split; [reflexivity|].
  rewrite length_map, length_seq. reflexivity.
Qed.

Lemma blur_spiral_witness :
  List.length (reads (tap Inputs.gradient (Vec2 0.5 0.5) (Vec2 0.025 0.025) 2))
  = 12%nat.
Proof.
  apply (blur_spiral Inputs.gradient (Vec2 0.5 0.5) (Vec2 0.025 0.025) 2).
  lra.
Defined.

Lemma tap_single (tex : vec2 -> vec3) (uv invRes : vec2) (blur : R) :
  blur < 0.5 ->
  tap tex uv invRes blur
  = (tex (Spiral.clamp_uv uv invRes), [Spiral.clamp_uv uv invRes]).
Proof.
  intros Hblur. unfold tap.
  destruct (Rlt_dec blur 0.5) as [_|Hge]; [reflexivity|contradiction].
Qed.

(** C5, as the code has it.  With [blur < 0.5], [tap] makes a single
    read, at [uv] clamped per axis to [[invRes, 1 - invRes]], and
    returns that sample.  When [uv] already lies in that range the read
    is at [uv] itself and the sample is the one at [uv]; and when
    [invRes] is at most [0.5] on both axes, so that the range is not
    empty, the read is at [uv] itself only then. *)
Theorem blur_bypass (tex : vec2 -> vec3) (uv invRes : vec2) (blur : R) :
  blur < 0.5 ->
  value (tap tex uv invRes blur) = tex (Spiral.clamp_uv uv invRes) /\
  reads (tap tex uv invRes blur) = [Spiral.clamp_uv uv invRes] /\
  (Domain.in_clamp_range invRes uv ->
   reads (tap tex uv invRes blur) = [uv] /\
   value (tap tex uv invRes blur) = tex uv) /\
  (v2x invRes <= 0.5 -> v2y invRes <= 0.5 ->
   reads (tap tex uv invRes blur) = [uv] ->
   Domain.in_clamp_range invRes uv).
Proof.
  intros Hblur. rewrite tap_single by assumption.
  unfold value, reads. cbn [fst snd].
  split; [reflexivity|]. split; [reflexivity|]. split.
  - intros [Hx Hy].
    assert (Hid : Spiral.clamp_uv uv invRes = uv).
    { destruct uv as [x y]. unfold Spiral.clamp_uv. cbn [v2x v2y] in *.
      apply vec2_eq; apply clamp_id; assumption. }
    rewrite Hid. split; reflexivity.
  - intros Hix Hiy Hread.
    assert (Hid : Spiral.clamp_uv uv invRes = uv) by congruence.
    destruct uv as [x y]. unfold Spiral.clamp_uv in Hid.
    cbn [v2x v2y] in Hid. injection Hid as Hcx Hcy.
    unfold Domain.in_clamp_range. cbn [v2x v2y]. split.
    + rewrite <- Hcx.
      apply (clamp_range x (v2x invRes) (1 - v2x invRes)). lra.
    + rewrite <- Hcy.
      apply (clamp_range y (v2y invRes) (1 - v2y invRes)). lra.
Qed.

Lemma blur_bypass_witness :
  reads (tap Inputs.gradient (Vec2 0.5 0.5) (Vec2 0.025 0.025) 0)
  = [Spiral.clamp_uv (Vec2 0.5 0.5) (Vec2 0.025 0.025)].
Proof.
  apply (blur_bypass Inputs.gradient (Vec2 0.5 0.5) (Vec2 0.025 0.025) 0).
  lra.
Defined.

(** C5 does not hold for the sample at [uv] itself: at the texture corner [(0, 0)]
    the sample returned is the one at [(0.1, 0.1)], not the one at
    [(0, 0)]. *)
Lemma blur_bypass_not_at_uv :
  0 < 0.5 /\
  value (tap Inputs.gradient (Vec2 0 0) (Vec2 0.1 0.1) 0)
  <> Inputs.gradient (Vec2 0 0).
Proof.
  split; [lra|].
  rewrite tap_single by lra.
  unfold value, Spiral.clamp_uv, clamp, Inputs.gradient. simpl.
  eval_minmax. intros Heq. injection Heq as H1 _ _. lra.
Qed.

(** ** Chromatic aberration off *)

(** C7.  With [u_ca <= 0.001] the sampled colour is the result of the
    single call [tap(uvG, invRes, u_blur)]: the three channels come
    from that one sample, and the texture reads are those of that call
    alone, so no read is made at a red or blue coordinate. *)
Theorem ca_bypass (tex : vec2 -> vec3) (u : Uniforms) (v_uv : vec2) :
  u_ca u <= 0.001 ->
  value (col0 tex u v_uv)
  = value (tap tex (uvG u v_uv) (invRes u) (u_blur u)) /\
  reads (col0 tex u v_uv)
  = reads (tap tex (uvG u v_uv) (invRes u) (u_blur u)).
Proof.
  intros Hca. unfold col0.
  destruct (Rgt_dec (u_ca u) 0.001) as [Hgt|_]; [lra|].
  split; reflexivity.
Qed.

Lemma ca_bypass_witness :
  reads (col0 Inputs.gradient (Inputs.tiny 1.45 0.25 1 1 1 0.8)
              Inputs.right_edge)
  = reads (tap Inputs.gradient
               (uvG (Inputs.tiny 1.45 0.25 1 1 1 0.8) Inputs.right_edge)
               (invRes (Inputs.tiny 1.45 0.25 1 1 1 0.8))
               (u_blur (Inputs.tiny 1.45 0.25 1 1 1 0.8))).
Proof.
  apply (ca_bypass Inputs.gradient (Inputs.tiny 1.45 0.25 1 1 1 0.8)
                   Inputs.right_edge).
  simpl. lra.
Defined.

(** ** Specular *)

(** C9.  The multiply chain is the 80th power scaled by 0.45, for
    every base [sb]; in [main] the base is [max(dot(N, HALF_VEC), 0)]. *)
Theorem spec_chain_pow80 :
  (forall sb : R, spec_chain sb = Specular.pow80 sb) /\
  (forall (u : Uniforms) (v_uv : vec2),
      spec u v_uv
      = Rmax (dot3 (N u v_uv) HALF_VEC) 0 ^ 80 * 0.45).
Proof.
  assert (H : forall sb : R, spec_chain sb = Specular.pow80 sb).
  { intros sb. unfold spec_chain, Specular.pow80. cbv zeta. ring. }
  split; [exact H|].
  intros u v_uv. unfold spec, sb. rewrite H. reflexivity.
Qed.

(** ** Fresnel *)

Lemma edge_inside (u : Uniforms) (v_uv : vec2) :
  d u v_uv < 0.5 -> 0 < edge u v_uv.
Proof.
  intros Hd. unfold edge.
  pose proof (smoothstep_below_one (d u v_uv) Hd). lra.
Qed.

Lemma fBase_tilted (u : Uniforms) (v_uv : vec2) :
  v3z (N u v_uv) < 1 -> 0 < fBase u v_uv.
Proof.
  intros Hz. unfold fBase, nz.
  apply Rmax_case_strong; intros; lra.
Qed.

(** ** The Fresnel strength reaches the output through [fres] alone *)

Create Rewrite HintDb fres_irrel.

Lemma res_with_fres (u : Uniforms) (f : R) :
  res (Inputs.with_fres u f) = res u.
Proof. reflexivity. Qed.
#[local] Hint Rewrite res_with_fres : fres_irrel.

Ltac fres_irrelevant :=
  autorewrite with fres_irrel;
  cbn [Inputs.with_fres width height u_ior u_ca u_dist u_cr
       u_tint_r u_tint_g u_tint_b u_tint_a u_blur];
  reflexivity.

Lemma invRes_with_fres (u : Uniforms) (f : R) :
  invRes (Inputs.with_fres u f) = invRes u.
Proof. unfold invRes. fres_irrelevant. Qed.
#[local] Hint Rewrite invRes_with_fres : fres_irrel.

Lemma hs_with_fres (u : Uniforms) (f : R) :
  hs (Inputs.with_fres u f) = hs u.
Proof. unfold hs. fres_irrelevant. Qed.
#[local] Hint Rewrite hs_with_fres : fres_irrel.

Lemma cr_with_fres (u : Uniforms) (f : R) :
  cr (Inputs.with_fres u f) = cr u.
Proof. unfold cr. fres_irrelevant. Qed.
#[local] Hint Rewrite cr_with_fres : fres_irrel.

Lemma p_with_fres (u : Uniforms) (f : R) (v_uv : vec2) :
  p (Inputs.with_fres u f) v_uv = p u v_uv.
Proof. unfold p. fres_irrelevant. Qed.
#[local] Hint Rewrite p_with_fres : fres_irrel.

Lemma d_with_fres (u : Uniforms) (f : R) (v_uv : vec2) :
  d (Inputs.with_fres u f) v_uv = d u v_uv.
Proof. unfold d. fres_irrelevant. Qed.
#[local] Hint Rewrite d_with_fres : fres_irrel.

Lemma edge_with_fres (u : Uniforms) (f : R) (v_uv : vec2) :
  edge (Inputs.with_fres u f) v_uv = edge u v_uv.
Proof. unfold edge. fres_irrelevant. Qed.
#[local] Hint Rewrite edge_with_fres : fres_irrel.

Lemma invHs2_with_fres (u : Uniforms) (f : R) :
  invHs2 (Inputs.with_fres u f) = invHs2 u.
Proof. unfold invHs2. fres_irrelevant. Qed.
#[local] Hint Rewrite invHs2_with_fres : fres_irrel.

Lemma q_with_fres (u : Uniforms) (f : R) (v_uv : vec2) :
  q (Inputs.with_fres u f) v_uv = q u v_uv.
Proof. unfold q. fres_irrelevant. Qed.
#[local] Hint Rewrite q_with_fres : fres_irrel.

Lemma ax_with_fres (u : Uniforms) (f : R) (v_uv : vec2) :
  ax (Inputs.with_fres u f) v_uv = ax u v_uv.
Proof. unfold ax. fres_irrelevant. Qed.
#[local] Hint Rewrite ax_with_fres : fres_irrel.

Lemma ay_with_fres (u : Uniforms) (f : R) (v_uv : vec2) :
  ay (Inputs.with_fres u f) v_uv = ay u v_uv.
Proof. unfold ay. fres_irrelevant. Qed.
#[local] Hint Rewrite ay_with_fres : fres_irrel.

Lemma t_with_fres (u : Uniforms) (f : R) (v_uv : vec2) :
  t (Inputs.with_fres u f) v_uv = t u v_uv.
Proof. unfold t. fres_irrelevant. Qed.
#[local] Hint Rewrite t_with_fres : fres_irrel.

Lemma om_with_fres (u : Uniforms) (f : R) (v_uv : vec2) :
  om (Inputs.with_fres u f) v_uv = om u v_uv.
Proof. unfold om. fres_irrelevant. Qed.
#[local] Hint Rewrite om_with_fres : fres_irrel.

Lemma om2_with_fres (u : Uniforms) (f : R) (v_uv : vec2) :
  om2 (Inputs.with_fres u f) v_uv = om2 u v_uv.
Proof. unfold om2. fres_irrelevant. Qed.
#[local] Hint Rewrite om2_with_fres : fres_irrel.

Lemma om4_with_fres (u : Uniforms) (f : R) (v_uv : vec2) :
  om4 (Inputs.with_fres u f) v_uv = om4 u v_uv.
Proof. unfold om4. fres_irrelevant. Qed.
#[local] Hint Rewrite om4_with_fres : fres_irrel.

Lemma base_with_fres (u : Uniforms) (f : R) (v_uv : vec2) :
  base (Inputs.with_fres u f) v_uv = base u v_uv.
Proof. unfold base. fres_irrelevant. Qed.
#[local] Hint Rewrite base_with_fres : fres_irrel.

Lemma sqrtBase_with_fres (u : Uniforms) (f : R) (v_uv : vec2) :
  sqrtBase (Inputs.with_fres u f) v_uv = sqrtBase u v_uv.
Proof. unfold sqrtBase. fres_irrelevant. Qed.
#[local] Hint Rewrite sqrtBase_with_fres : fres_irrel.

Lemma ht_with_fres (u : Uniforms) (f : R) (v_uv : vec2) :
  ht (Inputs.with_fres u f) v_uv = ht u v_uv.
Proof. unfold ht. fres_irrelevant. Qed.
#[local] Hint Rewrite ht_with_fres : fres_irrel.

Lemma hpD_with_fres (u : Uniforms) (f : R) (v_uv : vec2) :
  hpD (Inputs.with_fres u f) v_uv = hpD u v_uv.
Proof. unfold hpD. fres_irrelevant. Qed.
#[local] Hint Rewrite hpD_with_fres : fres_irrel.

Lemma hp_with_fres (u : Uniforms) (f : R) (v_uv : vec2) :
  hp (Inputs.with_fres u f) v_uv = hp u v_uv.
Proof. unfold hp. fres_irrelevant. Qed.
#[local] Hint Rewrite hp_with_fres : fres_irrel.

Lemma hGrad_with_fres (u : Uniforms) (f : R) (v_uv : vec2) :
  hGrad (Inputs.with_fres u f) v_uv = hGrad u v_uv.
Proof. unfold hGrad. fres_irrelevant. Qed.
#[local] Hint Rewrite hGrad_with_fres : fres_irrel.

Lemma slope_with_fres (u : Uniforms) (f : R) (v_uv : vec2) :
  slope (Inputs.with_fres u f) v_uv = slope u v_uv.
Proof. unfold slope. fres_irrelevant. Qed.
#[local] Hint Rewrite slope_with_fres : fres_irrel.

Lemma N_with_fres (u : Uniforms) (f : R) (v_uv : vec2) :
  N (Inputs.with_fres u f) v_uv = N u v_uv.
Proof. unfold N. fres_irrelevant. Qed.
#[local] Hint Rewrite N_with_fres : fres_irrel.

Lemma scaleInv_with_fres (u : Uniforms) (f : R) :
  scaleInv (Inputs.with_fres u f) = scaleInv u.
Proof. unfold scaleInv. fres_irrelevant. Qed.
#[local] Hint Rewrite scaleInv_with_fres : fres_irrel.

Lemma rG_with_fres (u : Uniforms) (f : R) (v_uv : vec2) :
  rG (Inputs.with_fres u f) v_uv = rG u v_uv.
Proof. unfold rG. fres_irrelevant. Qed.
#[local] Hint Rewrite rG_with_fres : fres_irrel.

Lemma uvG_with_fres (u : Uniforms) (f : R) (v_uv : vec2) :
  uvG (Inputs.with_fres u f) v_uv = uvG u v_uv.
Proof. unfold uvG. fres_irrelevant. Qed.
#[local] Hint Rewrite uvG_with_fres : fres_irrel.

Lemma nz_with_fres (u : Uniforms) (f : R) (v_uv : vec2) :
  nz (Inputs.with_fres u f) v_uv = nz u v_uv.
Proof. unfold nz. fres_irrelevant. Qed.
#[local] Hint Rewrite nz_with_fres : fres_irrel.

Lemma fBase_with_fres (u : Uniforms) (f : R) (v_uv : vec2) :
  fBase (Inputs.with_fres u f) v_uv = fBase u v_uv.
Proof. unfold fBase. fres_irrelevant. Qed.
#[local] Hint Rewrite fBase_with_fres : fres_irrel.

Lemma sb_with_fres (u : Uniforms) (f : R) (v_uv : vec2) :
  sb (Inputs.with_fres u f) v_uv = sb u v_uv.
Proof. unfold sb. fres_irrelevant. Qed.
#[local] Hint Rewrite sb_with_fres : fres_irrel.

Lemma spec_with_fres (u : Uniforms) (f : R) (v_uv : vec2) :
  spec (Inputs.with_fres u f) v_uv = spec u v_uv.
Proof. unfold spec. fres_irrelevant. Qed.
#[local] Hint Rewrite spec_with_fres : fres_irrel.

Lemma col0_with_fres (tex : vec2 -> vec3) (u : Uniforms) (f : R) (v_uv : vec2) :
  col0 tex (Inputs.with_fres u f) v_uv = col0 tex u v_uv.
Proof. unfold col0. fres_irrelevant. Qed.
#[local] Hint Rewrite col0_with_fres : fres_irrel.

(** The lit colour is affine in the Fresnel strength: per channel the
    slope is the cube of [fBase], times the channel weight of the rim
    colour, times the tint factor [1 - ta + ta * tint]. *)
Lemma lit_with_fres (u : Uniforms) (v_uv : vec2) (f : R) (col : vec3) :
  lit (Inputs.with_fres u f) v_uv col
  = add3 (lit (Inputs.with_fres u 0) v_uv col)
      (smul3 (fBase u v_uv * fBase u v_uv * fBase u v_uv * f)
         (Vec3 (0.85 * (1 - u_tint_a u + u_tint_a u * u_tint_r u))
               (0.9 * (1 - u_tint_a u + u_tint_a u * u_tint_g u))
               (1.0 * (1 - u_tint_a u + u_tint_a u * u_tint_b u)))).
Proof.
  unfold lit, fres. autorewrite with fres_irrel.
  set (F := fBase u v_uv). set (S := spec u v_uv). set (H := ht u v_uv).
  destruct col as [r g b].
  unfold add3, smul3, mul3, adds3, mix3, mix, Inputs.with_fres.
  cbn [v3x v3y v3z u_fres u_tint_r u_tint_g u_tint_b u_tint_a].
  apply vec3_eq; ring.
Qed.

(** The output colour for Fresnel strength [f], all else held. *)
Lemma out_with_fres (tex : vec2 -> vec3) (u : Uniforms) (v_uv : vec2) (f : R) :
  v4rgb (value (main tex (Inputs.with_fres u f) v_uv))
  = mix3 (tex v_uv)
      (add3 (lit (Inputs.with_fres u 0) v_uv (value (col0 tex u v_uv)))
         (smul3 (fBase u v_uv * fBase u v_uv * fBase u v_uv * f)
            (Vec3 (0.85 * (1 - u_tint_a u + u_tint_a u * u_tint_r u))
                  (0.9 * (1 - u_tint_a u + u_tint_a u * u_tint_g u))
                  (1.0 * (1 - u_tint_a u + u_tint_a u * u_tint_b u)))))
      (edge u v_uv).
Proof.
  rewrite value_main. cbn [v4rgb].
  rewrite col0_with_fres, edge_with_fres, lit_with_fres. reflexivity.
Qed.

(** C8, as the code has it.  At a point with positive edge coverage
    ([d < 0.5], which includes the silhouette [d = 0]) where the normal
    is tilted ([N.z < 1]), every output channel whose tint factor
    [1 - ta + ta * tint] is positive is strictly increasing in the
    Fresnel strength, all else held. *)
Theorem fresnel_monotonic (tex : vec2 -> vec3) (u : Uniforms) (v_uv : vec2)
        (fres1 fres2 : R) :
  fres1 < fres2 ->
  d u v_uv < 0.5 ->
  v3z (N u v_uv) < 1 ->
  (0 < 1 - u_tint_a u + u_tint_a u * u_tint_r u ->
   v3x (v4rgb (value (main tex (Inputs.with_fres u fres1) v_uv)))
   < v3x (v4rgb (value (main tex (Inputs.with_fres u fres2) v_uv)))) /\
  (0 < 1 - u_tint_a u + u_tint_a u * u_tint_g u ->
   v3y (v4rgb (value (main tex (Inputs.with_fres u fres1) v_uv)))
   < v3y (v4rgb (value (main tex (Inputs.with_fres u fres2) v_uv)))) /\
  (0 < 1 - u_tint_a u + u_tint_a u * u_tint_b u ->
   v3z (v4rgb (value (main tex (Inputs.with_fres u fres1) v_uv)))
   < v3z (v4rgb (value (main tex (Inputs.with_fres u fres2) v_uv)))).
Proof.
  intros Hf Hd Hz.
  pose proof (edge_inside u v_uv Hd) as He.
  pose proof (fBase_tilted u v_uv Hz) as HF.
  rewrite !out_with_fres.
  set (e := edge u v_uv) in *.
  set (F := fBase u v_uv) in *.
  assert (HF3 : 0 < F * F * F) by (apply Rmult_lt_0_compat; nra).
  set (F3 := F * F * F) in *.
  assert (Hdf : 0 < F3 * fres2 - F3 * fres1) by nra.
  set (base_col := lit (Inputs.with_fres u 0) v_uv (value (col0 tex u v_uv))).
  destruct (tex v_uv) as [br bg bb]. destruct base_col as [cr cg cb].
  unfold mix3, mix, add3, smul3. cbn [v3x v3y v3z].
  set (kr := 1 - u_tint_a u + u_tint_a u * u_tint_r u) in *.
  set (kg := 1 - u_tint_a u + u_tint_a u * u_tint_g u) in *.
  set (kb := 1 - u_tint_a u + u_tint_a u * u_tint_b u) in *.
  split; [|split]; intros Hk.
  - assert (0 < (F3 * fres2 - F3 * fres1) * kr)
      by (apply Rmult_lt_0_compat; lra).
    nra.
  - assert (0 < (F3 * fres2 - F3 * fres1) * kg)
      by (apply Rmult_lt_0_compat; lra).
    nra.
  - assert (0 < (F3 * fres2 - F3 * fres1) * kb)
      by (apply Rmult_lt_0_compat; lra).
    nra.
Qed.

Lemma fresnel_monotonic_witness :
  v3x (v4rgb (value (main Inputs.grey
                       (Inputs.with_fres (Inputs.tiny 1.45 0.25 1 1 1 0.8) 0)
                       Inputs.right_edge)))
  < v3x (v4rgb (value (main Inputs.grey
                         (Inputs.with_fres (Inputs.tiny 1.45 0.25 1 1 1 0.8) 1)
                         Inputs.right_edge))).
Proof.
  apply (fresnel_monotonic Inputs.grey (Inputs.tiny 1.45 0.25 1 1 1 0.8)
                           Inputs.right_edge 0 1).
  - lra.
  - rewrite (d_edge (Inputs.tiny 1.45 0.25 1 1 1 0.8) eq_refl eq_refl eq_refl).
    lra.
  - pose proof (N_z_edge (Inputs.tiny 1.45 0.25 1 1 1 0.8) eq_refl eq_refl).
    lra.
  - simpl. lra.
Defined.

(** C8 does not hold at every silhouette point, for two reasons.  Under an opaque
    black tint the lit colour is multiplied by zero: at the silhouette
    point in the middle of the right edge, raising the Fresnel strength
    from 0 to 1 leaves the red channel of the output where it was.  And
    at the corner of a panel with square corners, also a silhouette
    point, the dome is flat, the Fresnel base is zero and the output
    does not move either, whatever the tint. *)
Lemma fresnel_not_strict :
  (d (Inputs.tiny 1.45 0 0 0 0 1) Inputs.right_edge = 0 /\
   0 < 1 /\
   ~ (v3x (v4rgb (value (main Inputs.grey
                           (Inputs.with_fres (Inputs.tiny 1.45 0 0 0 0 1) 0)
                           Inputs.right_edge)))
      < v3x (v4rgb (value (main Inputs.grey
                             (Inputs.with_fres (Inputs.tiny 1.45 0 0 0 0 1) 1)
                             Inputs.right_edge))))) /\
  (d (Inputs.tiny 1.45 0 1 1 1 0.8) Inputs.corner = 0 /\
   0 < 1 /\
   ~ (v3x (v4rgb (value (main Inputs.grey
                           (Inputs.with_fres (Inputs.tiny 1.45 0 1 1 1 0.8) 0)
                           Inputs.corner)))
      < v3x (v4rgb (value (main Inputs.grey
                             (Inputs.with_fres (Inputs.tiny 1.45 0 1 1 1 0.8) 1)
                             Inputs.corner))))).
Proof.
  split.
  - split; [apply d_edge; reflexivity|].
    split; [lra|].
    rewrite !out_with_fres.
    cbn [Inputs.tiny u_tint_a u_tint_r u_tint_g u_tint_b].
    set (e := edge _ _). set (F := fBase _ _).
    set (base_col := lit _ _ _). set (bg := Inputs.grey _).
    destruct bg as [br bg bb]. destruct base_col as [cr cg cb].
    unfold mix3, mix, add3, smul3. cbn [v3x v3y v3z].
    apply Rle_not_lt. right. ring.
  - split; [apply d_corner; reflexivity|].
    split; [lra|].
    rewrite !out_with_fres.
    rewrite (fBase_corner (Inputs.tiny 1.45 0 1 1 1 0.8) eq_refl eq_refl).
    set (e := edge _ _).
    set (base_col := lit _ _ _). set (bg := Inputs.grey _).
    destruct bg as [br bg bb]. destruct base_col as [cr cg cb].
    unfold mix3, mix, add3, smul3. cbn [v3x v3y v3z].
    apply Rle_not_lt. right. ring.
Qed.

End ShaderFacts.

(** * Properties of the effect *)

Module EffectFacts.
Import Effect.



(** The first paint of a new effect on an actor of positive size
    uploads all twelve uniforms. *)
Lemma first_paint_uploads (params : Params) (w h : R) :
  0 < w -> 0 < h ->
  uploads (vfunc_paint_target (Some (mkActor w h)) (_init params))
  = [("width"%string, w - 1e-6);
     ("height"%string, h - 1e-6);
     ("u_ior"%string, _ior (_init params) - 1e-6);
     ("u_ca"%string, _ca (_init params) - 1e-6);
     ("u_dist"%string, _dist (_init params) - 1e-6);
     ("u_cr"%string, _cr (_init params) - 1e-6);
     ("u_fres"%string, _fres (_init params) - 1e-6);
     ("u_blur"%string, _blur (_init params) - 1e-6);
     ("u_tint_r"%string, tint0 (_tint (_init params)) - 1e-6);
     ("u_tint_g"%string, tint1 (_tint (_init params)) - 1e-6);
     ("u_tint_b"%string, tint2 (_tint (_init params)) - 1e-6);
     ("u_tint_a"%string, tint3 (_tint (_init params)) - 1e-6)].
Proof.
  intros Hw Hh. unfold vfunc_paint_target.
  cbn [get_width get_height].
  assert (Hle : (le0 w || le0 h)%bool = false).
  { unfold le0. destruct (Rle_dec w 0); [lra|].
    destruct (Rle_dec h 0); [lra|reflexivity]. }
  rewrite Hle.
  assert (Hneq : strict_neq w (_lastW (_init params)) = true).
  { unfold strict_neq, _init. cbn [_lastW].
    destruct (Req_dec_T w (-1)); [lra|reflexivity]. }
  rewrite Hneq. cbn [orb]. reflexivity.
Qed.


End EffectFacts.

(** * Further properties of the shader *)

Module ShaderMore.
Import GLSL Shader ShaderFacts Domain.

(** ** The rounded-box distance *)

Lemma sqrt_sum_left (a b : R) : 0 <= a -> a <= sqrt (a * a + b * b).
Proof.
  intros Ha. rewrite <- (sqrt_square a) at 1 by assumption.
  apply sqrt_le_1_alt. nra.
Qed.

Lemma sqrt_sum_right (a b : R) : 0 <= b -> b <= sqrt (a * a + b * b).
Proof.
  intros Hb. rewrite <- (sqrt_square b) at 1 by assumption.
  apply sqrt_le_1_alt. nra.
Qed.

Lemma box_lower (dx dy : R) :
  dx <= Rmin (Rmax dx dy) 0
        + sqrt (Rmax dx 0 * Rmax dx 0 + Rmax dy 0 * Rmax dy 0)
  /\ dy <= Rmin (Rmax dx dy) 0
           + sqrt (Rmax dx 0 * Rmax dx 0 + Rmax dy 0 * Rmax dy 0).
Proof.
  pose proof (sqrt_sum_left (Rmax dx 0) (Rmax dy 0) (Rmax_r dx 0)) as HLx.
  pose proof (sqrt_sum_right (Rmax dx 0) (Rmax dy 0) (Rmax_r dy 0)) as HLy.
  pose proof (sqrt_pos (Rmax dx 0 * Rmax dx 0 + Rmax dy 0 * Rmax dy 0)) as H0.
  pose proof (Rmax_l dx 0) as Hdx. pose proof (Rmax_l dy 0) as Hdy.
  pose proof (Rmax_l dx dy) as Hx. pose proof (Rmax_r dx dy) as Hy.
  generalize dependent (sqrt (Rmax dx 0 * Rmax dx 0 + Rmax dy 0 * Rmax dy 0)).
  intros L HLx HLy H0.
  apply Rmin_case_strong; intros Hc; split; lra.
Qed.

Lemma sdf_lower_x (p h : vec2) (r : R) : Rabs (v2x p) - v2x h <= sdf p h r.
Proof.
  unfold sdf, length2, dot2, maxs2, adds2, sub2, abs2. simpl.
  destruct (box_lower
              (Rabs (v2x p) - v2x h + Rmin r (Rmin (v2x h) (v2y h)))
              (Rabs (v2y p) - v2y h + Rmin r (Rmin (v2x h) (v2y h))))
    as [Hx _].
  lra.
Qed.

Lemma sdf_lower_y (p h : vec2) (r : R) : Rabs (v2y p) - v2y h <= sdf p h r.
Proof.
  unfold sdf, length2, dot2, maxs2, adds2, sub2, abs2. simpl.
  destruct (box_lower
              (Rabs (v2x p) - v2x h + Rmin r (Rmin (v2x h) (v2y h)))
              (Rabs (v2y p) - v2y h + Rmin r (Rmin (v2x h) (v2y h))))
    as [_ Hy].
  lra.
Qed.

(** X1.  The rounded-box distance is never below the distance to the
    bounding box on either axis, whatever the radius and the
    half-extents are. *)
Theorem sdf_above_box (p h : vec2) (r : R) :
  Rabs (v2x p) - v2x h <= sdf p h r /\ Rabs (v2y p) - v2y h <= sdf p h r.
Proof. split; [apply sdf_lower_x|apply sdf_lower_y]. Qed.

Lemma origin_distance (hx hy r : R) :
  r <= Rmin hx hy ->
  Rmin (Rmax (0 - hx + r) (0 - hy + r)) 0
  + sqrt (Rmax (0 - hx + r) 0 * Rmax (0 - hx + r) 0
          + Rmax (0 - hy + r) 0 * Rmax (0 - hy + r) 0) - r
  = - Rmin hx hy.
Proof.
  intros Hr.
  assert (Hmx : Rmin hx hy <= hx) by apply Rmin_l.
  assert (Hmy : Rmin hx hy <= hy) by apply Rmin_r.
  rewrite (Rmax_right (0 - hx + r) 0) by lra.
  rewrite (Rmax_right (0 - hy + r) 0) by lra.
  replace (0 * 0 + 0 * 0) with 0 by ring. rewrite sqrt_0.
  revert Hr Hmx Hmy. apply Rmin_case_strong; intros Hc Hr Hmx Hmy.
  - rewrite (Rmax_left (0 - hx + r) (0 - hy + r)) by lra.
    rewrite Rmin_left by lra. ring.
  - rewrite (Rmax_right (0 - hx + r) (0 - hy + r)) by lra.
    rewrite Rmin_left by lra. ring.
Qed.

Lemma sdf_origin (h : vec2) (r : R) :
  sdf (Vec2 0 0) h r = - Rmin (v2x h) (v2y h).
Proof.
  unfold sdf, length2, dot2, maxs2, adds2, sub2, abs2. simpl.
  rewrite Rabs_R0. apply origin_distance. apply Rmin_r.
Qed.

(** X2.  At the centre of the rectangle the distance is minus the
    smaller half-extent, whatever the corner radius: in [main], [d] at
    the centre pixel does not depend on [u_cr]. *)
Theorem sdf_at_centre (h : vec2) (r : R) (u : Uniforms) (v_uv : vec2) :
  sdf (Vec2 0 0) h r = - Rmin (v2x h) (v2y h) /\
  (p u v_uv = Vec2 0 0 ->
   d u v_uv = - Rmin (v2x (hs u)) (v2y (hs u))).
Proof.
  split.
  - apply sdf_origin.
  - intros Hp. unfold d. rewrite Hp. apply sdf_origin.
Qed.

(** ** The edge mask *)

Lemma clamp_below (x lo hi : R) : lo <= hi -> x <= lo -> clamp x lo hi = lo.
Proof.
  intros Hlh Hx. unfold clamp.
  rewrite (Rmax_right x lo) by assumption.
  apply Rmin_left; assumption.
Qed.

Lemma mix_one (x y : R) : mix x y 1 = y.
Proof. unfold mix; ring. Qed.

Lemma mix3_one (x y : vec3) : mix3 x y 1 = y.
Proof. unfold mix3. rewrite !mix_one. apply vec3_eta. Qed.

Lemma mix_between (x y a : R) :
  0 <= a <= 1 -> Rmin x y <= mix x y a <= Rmax x y.
Proof.
  intros Ha. unfold mix.
  apply Rmin_case_strong; apply Rmax_case_strong; intros; split; nra.
Qed.

Lemma edge_range (u : Uniforms) (v_uv : vec2) : 0 <= edge u v_uv <= 1.
Proof.
  unfold edge. pose proof (smoothstep_range (-1.5) 0.5 (d u v_uv)). lra.
Qed.

Lemma edge_interior (u : Uniforms) (v_uv : vec2) :
  d u v_uv <= -1.5 -> edge u v_uv = 1.
Proof.
  intros Hd. unfold edge, smoothstep.
  rewrite clamp_below by lra. ring.
Qed.

Lemma d_panel40_centre : d Inputs.panel40 (Vec2 0.5 0.5) = -20.
Proof.
  unfold d. rewrite p_panel40_centre, sdf_origin, hs_panel40. simpl.
  rewrite Rmin_left by lra. reflexivity.
Qed.

(** X3.  A pixel more than one pixel outside the bounding box of the
    panel, on either axis, shows the background sample at its own
    coordinate. *)
Theorem outside_box_is_background (tex : vec2 -> vec3) (u : Uniforms)
        (v_uv : vec2) :
  Domain.well_defined u ->
  v2x (hs u) + 1 < Rabs (v2x (p u v_uv))
  \/ v2y (hs u) + 1 < Rabs (v2y (p u v_uv)) ->
  value (main tex u v_uv) = Vec4 (tex v_uv) 1.
Proof.
  intros _ Hout.
  assert (Hd : 0.5 <= d u v_uv).
  { unfold d.
    pose proof (sdf_lower_x (p u v_uv) (hs u) (cr u)).
    pose proof (sdf_lower_y (p u v_uv) (hs u) (cr u)).
    destruct Hout; lra. }
  rewrite value_main, (edge_outside u v_uv Hd), mix3_zero. f_equal. lra.
Qed.

(** A probe 55 pixels right of the centre of [panel40]. *)
Lemma p_panel40_far : p Inputs.panel40 (Vec2 1.875 0.5) = Vec2 55 0.
Proof. unfold p, res, sub2, mul2, muls2. simpl. apply vec2_eq; lra. Qed.

Lemma well_defined_panel40 : Domain.well_defined Inputs.panel40.
Proof. unfold Domain.well_defined. simpl. lra. Qed.

Lemma outside_box_is_background_witness :
  value (main Inputs.grey Inputs.panel40 (Vec2 1.875 0.5))
  = Vec4 (Vec3 0.5 0.5 0.5) 1.
Proof.
  apply (outside_box_is_background Inputs.grey Inputs.panel40 (Vec2 1.875 0.5)).
  - exact well_defined_panel40.
  - left. rewrite p_panel40_far, hs_panel40. simpl.
    rewrite Rabs_right by lra. lra.
Defined.

(** X4.  Deep inside the panel, [d <= -1.5], the edge mask is 1 and the
    output is the lit colour alone: the background sample at the
    pixel's own coordinate does not enter it. *)
Theorem interior_is_lit (tex : vec2 -> vec3) (u : Uniforms) (v_uv : vec2) :
  Domain.well_defined u ->
  d u v_uv <= -1.5 ->
  edge u v_uv = 1 /\
  value (main tex u v_uv) = Vec4 (lit u v_uv (value (col0 tex u v_uv))) 1.
Proof.
  intros _ Hd.
  pose proof (edge_interior u v_uv Hd) as He.
  split; [exact He|].
  rewrite value_main, He, mix3_one. f_equal. lra.
Qed.

Lemma interior_is_lit_witness : edge Inputs.panel40 (Vec2 0.5 0.5) = 1.
Proof.
  apply (interior_is_lit Inputs.grey Inputs.panel40 (Vec2 0.5 0.5)).
  - exact well_defined_panel40.
  - rewrite d_panel40_centre. lra.
Defined.

(** X5.  The edge mask lies in [[0, 1]], so every channel of the output
    lies between the background sample and the lit colour. *)
Theorem output_between (tex : vec2 -> vec3) (u : Uniforms) (v_uv : vec2) :
  well_defined u ->
  let bg := tex v_uv in
  let col := lit u v_uv (value (col0 tex u v_uv)) in
  let out := v4rgb (value (main tex u v_uv)) in
  0 <= edge u v_uv <= 1 /\
  Rmin (v3x bg) (v3x col) <= v3x out <= Rmax (v3x bg) (v3x col) /\
  Rmin (v3y bg) (v3y col) <= v3y out <= Rmax (v3y bg) (v3y col) /\
  Rmin (v3z bg) (v3z col) <= v3z out <= Rmax (v3z bg) (v3z col).
Proof.
  intros _ bg col out. pose proof (edge_range u v_uv) as He.
  split; [exact He|].
  unfold out. rewrite value_main. cbn [v4rgb]. fold bg. fold col.
  unfold mix3. cbn [v3x v3y v3z].
  repeat split; apply mix_between; exact He.
Qed.

Lemma output_between_witness : 0 <= edge Inputs.panel40 (Vec2 0.75 0.5) <= 1.
Proof.
  apply (output_between Inputs.grey Inputs.panel40 (Vec2 0.75 0.5)).
  exact well_defined_panel40.
Defined.

(** ** The tilt of the normal *)

Lemma hGrad_x_formula (u : Uniforms) (v_uv : vec2) :
  v2x (hGrad u v_uv)
  = - (8 * (hp u v_uv * ay u v_uv) * ((1 / width u) * (1 / width u)))
    * v2x (p u v_uv).
Proof.
  unfold hGrad, smul2, invHs2, invRes, res, mul2, smul2, sdiv2. simpl. ring.
Qed.

Lemma hGrad_y_formula (u : Uniforms) (v_uv : vec2) :
  v2y (hGrad u v_uv)
  = - (8 * (hp u v_uv * ax u v_uv) * ((1 / height u) * (1 / height u)))
    * v2y (p u v_uv).
Proof.
  unfold hGrad, smul2, invHs2, invRes, res, mul2, smul2, sdiv2. simpl. ring.
Qed.

(** Each horizontal component of the normal is a non-negative multiple
    of the same component of the position. *)
Lemma N_x_multiple (u : Uniforms) (v_uv : vec2) :
  exists k : R, 0 <= k /\ v3x (N u v_uv) = k * v2x (p u v_uv).
Proof.
  pose proof (hp_range u v_uv) as Hhp. pose proof (ay_range u v_uv) as Hay.
  pose proof (slope_length u v_uv) as HL.
  assert (HiL : 0 < / length3 (slope u v_uv))
    by (apply Rinv_0_lt_compat; lra).
  assert (Hm : 0 <= hp u v_uv * ay u v_uv) by nra.
  assert (Hw : 0 <= (1 / width u) * (1 / width u)) by nra.
  exists (8 * (hp u v_uv * ay u v_uv) * ((1 / width u) * (1 / width u)) * 50
          * / length3 (slope u v_uv)).
  split.
  - apply Rmult_le_pos; [|lra].
    apply Rmult_le_pos; [|lra].
    apply Rmult_le_pos; [|exact Hw].
    apply Rmult_le_pos; [lra|exact Hm].
  - unfold N, normalize, divs3, slope, muls2, neg2. cbn [v3x v2x].
    rewrite hGrad_x_formula. unfold Rdiv at 1. ring.
Qed.

Lemma N_y_multiple (u : Uniforms) (v_uv : vec2) :
  exists k : R, 0 <= k /\ v3y (N u v_uv) = k * v2y (p u v_uv).
Proof.
  pose proof (hp_range u v_uv) as Hhp. pose proof (ax_range u v_uv) as Hax.
  pose proof (slope_length u v_uv) as HL.
  assert (HiL : 0 < / length3 (slope u v_uv))
    by (apply Rinv_0_lt_compat; lra).
  assert (Hm : 0 <= hp u v_uv * ax u v_uv) by nra.
  assert (Hw : 0 <= (1 / height u) * (1 / height u)) by nra.
  exists (8 * (hp u v_uv * ax u v_uv) * ((1 / height u) * (1 / height u)) * 50
          * / length3 (slope u v_uv)).
  split.
  - apply Rmult_le_pos; [|lra].
    apply Rmult_le_pos; [|lra].
    apply Rmult_le_pos; [|exact Hw].
    apply Rmult_le_pos; [lra|exact Hm].
  - unfold N, normalize, divs3, slope, muls2, neg2. cbn [v3y v2y].
    rewrite hGrad_y_formula. unfold Rdiv at 1. ring.
Qed.

(** X6.  The dome normal tilts outward: on each axis its component has
    the sign of the pixel's offset from the centre (or is zero), and it
    always faces the viewer. *)
Theorem normal_tilts_outward (u : Uniforms) (v_uv : vec2) :
  Domain.well_defined u ->
  (0 <= v2x (p u v_uv) -> 0 <= v3x (N u v_uv)) /\
  (v2x (p u v_uv) <= 0 -> v3x (N u v_uv) <= 0) /\
  (0 <= v2y (p u v_uv) -> 0 <= v3y (N u v_uv)) /\
  (v2y (p u v_uv) <= 0 -> v3y (N u v_uv) <= 0) /\
  0 < v3z (N u v_uv).
Proof.
  intros _.
  destruct (N_x_multiple u v_uv) as [kx [Hkx Hx]].
  destruct (N_y_multiple u v_uv) as [ky [Hky Hy]].
  rewrite Hx, Hy.
  repeat split; try (intros Hp; nra).
  apply N_z_range.
Qed.

Lemma normal_tilts_outward_witness :
  0 <= v3x (N Inputs.panel40 (Vec2 0.75 0.5)).
Proof.
  apply (normal_tilts_outward Inputs.panel40 (Vec2 0.75 0.5)).
  - exact well_defined_panel40.
  - rewrite p_panel40_right. simpl. lra.
Defined.

(** ** The refracted rays *)

Lemma dot_I (n : vec3) : dot3 n I = - v3z n.
Proof. unfold dot3, I. simpl. ring. Qed.

Lemma dot_I_I : dot3 I I = 1.
Proof. unfold dot3, I. simpl. ring. Qed.

(** [refract] returns the zero vector or, for a unit normal, a unit
    vector. *)
Lemma refract_zero_or_unit (n : vec3) (eta : R) :
  dot3 n n = 1 ->
  refract I n eta = Vec3 0 0 0
  \/ dot3 (refract I n eta) (refract I n eta) = 1.
Proof.
  intros Hn.
  destruct (Rlt_le_dec (1 - eta * eta * (1 - dot3 n I * dot3 n I)) 0)
    as [Hlt|Hge].
  - left. unfold refract.
    destruct (Rlt_dec _ 0) as [_|Hk]; [reflexivity|contradiction].
  - right. apply refract_unit; assumption.
Qed.

(** A ray that falls back to [fallback] when [refract] fails. *)
Lemma fallback_unit (n fallback : vec3) (eta : R) :
  dot3 n n = 1 -> dot3 fallback fallback = 1 ->
  let r := refract I n eta in
  dot3 (if Rlt_dec (dot3 r r) 0.001 then fallback else r)
       (if Rlt_dec (dot3 r r) 0.001 then fallback else r) = 1.
Proof.
  intros Hn Hf r. unfold r.
  destruct (refract_zero_or_unit n eta Hn) as [Hz|Hu].
  - rewrite Hz.
    assert (H0 : dot3 (Vec3 0 0 0) (Vec3 0 0 0) = 0)
      by (unfold dot3; simpl; ring).
    rewrite H0.
    destruct (Rlt_dec 0 0.001) as [_|Hge]; [exact Hf|lra].
  - destruct (Rlt_dec _ 0.001) as [Hlt|_]; [lra|exact Hu].
Qed.

Lemma rG_dot (u : Uniforms) (v_uv : vec2) : dot3 (rG u v_uv) (rG u v_uv) = 1.
Proof.
  unfold rG. apply (fallback_unit (N u v_uv) I (1 / u_ior u)).
  - apply N_dot.
  - exact dot_I_I.
Qed.

(** X7.  The green ray always has length 1: it is either a refracted
    ray, of length 1, or the incident ray. *)
Theorem green_ray_unit (u : Uniforms) (v_uv : vec2) :
  Domain.well_defined u ->
  length3 (rG u v_uv) = 1.
Proof.
  intros _. unfold length3. rewrite rG_dot. apply sqrt_1.
Qed.

Lemma green_ray_unit_witness :
  length3 (rG Inputs.panel40 (Vec2 0.75 0.5)) = 1.
Proof.
  apply (green_ray_unit Inputs.panel40 (Vec2 0.75 0.5)).
  exact well_defined_panel40.
Defined.

(** The components of a refracted ray, for the incident ray [I]. *)
Lemma refract_components (n : vec3) (eta : R) :
  0 <= 1 - eta * eta * (1 - v3z n * v3z n) ->
  refract I n eta
  = Vec3 (- (sqrt (1 - eta * eta * (1 - v3z n * v3z n)) - eta * v3z n) * v3x n)
         (- (sqrt (1 - eta * eta * (1 - v3z n * v3z n)) - eta * v3z n) * v3y n)
         (- eta
          - (sqrt (1 - eta * eta * (1 - v3z n * v3z n)) - eta * v3z n) * v3z n).
Proof.
  intros Hk. unfold refract. rewrite dot_I.
  replace (- v3z n * - v3z n) with (v3z n * v3z n) by ring.
  destruct (Rlt_dec _ 0) as [Hlt|_]; [lra|].
  unfold sub3, smul3, I. simpl. apply vec3_eq; ring.
Qed.

(** For a ratio of indices of at most 1 the ray bends towards the
    normal: the coefficient of the normal is not negative. *)
Lemma bend_coefficient (eta c : R) :
  0 < eta <= 1 -> 0 < c <= 1 ->
  0 <= 1 - eta * eta * (1 - c * c)
  /\ 0 <= sqrt (1 - eta * eta * (1 - c * c)) - eta * c.
Proof.
  intros Heta Hc.
  assert (He2 : 0 <= eta * eta <= 1) by nra.
  assert (Hc2 : 0 <= 1 - c * c <= 1) by nra.
  assert (Hk : 0 <= 1 - eta * eta * (1 - c * c)) by nra.
  split; [exact Hk|].
  assert (Hle : eta * c <= sqrt (1 - eta * eta * (1 - c * c))).
  { rewrite <- (sqrt_square (eta * c)) by nra.
    apply sqrt_le_1_alt. nra. }
  lra.
Qed.

Lemma inv_ior_range (i : R) : 1 <= i -> 0 < 1 / i <= 1.
Proof.
  intros Hi. unfold Rdiv. rewrite Rmult_1_l. split.
  - apply Rinv_0_lt_compat; lra.
  - rewrite <- Rinv_1. apply Rinv_le_contravar; lra.
Qed.

(** The green ray, for an index of at least 1, is a non-positive
    multiple of the normal on both horizontal axes. *)
Lemma rG_xy_multiple (u : Uniforms) (v_uv : vec2) :
  1 <= u_ior u ->
  exists c : R,
    0 <= c /\
    v3x (rG u v_uv) = - c * v3x (N u v_uv) /\
    v3y (rG u v_uv) = - c * v3y (N u v_uv).
Proof.
  intros Hior. rewrite (tir_unreachable u v_uv Hior).
  destruct (bend_coefficient (1 / u_ior u) (v3z (N u v_uv))
              (inv_ior_range _ Hior) (N_z_range u v_uv)) as [Hk Hc].
  rewrite (refract_components _ _ Hk). cbn [v3x v3y].
  eexists. split; [exact Hc|]. split; reflexivity.
Qed.

Lemma scaleInv_nonneg (u : Uniforms) :
  0 < width u -> 0 < height u -> 0 <= u_dist u ->
  0 <= v2x (scaleInv u) /\ 0 <= v2y (scaleInv u).
Proof.
  intros Hw Hh Hd. unfold scaleInv, smul2, invRes, sdiv2, res. cbn [v2x v2y].
  pose proof (sqrt_pos (dot2 (Vec2 (width u) (height u))
                             (Vec2 (width u) (height u)))) as HL.
  fold (length2 (Vec2 (width u) (height u))) in HL.
  set (L := length2 _) in *.
  assert (Hs : 0 <= L * 0.1 * u_dist u) by nra.
  assert (Hiw : 0 < 1 / width u)
    by (unfold Rdiv; rewrite Rmult_1_l; apply Rinv_0_lt_compat; lra).
  assert (Hih : 0 < 1 / height u)
    by (unfold Rdiv; rewrite Rmult_1_l; apply Rinv_0_lt_compat; lra).
  split; apply Rmult_le_pos; lra.
Qed.

(** X8.  For an index of refraction of at least 1 and a non-negative
    distortion scale, the green sample coordinate is displaced towards
    the centre line on each axis, never away from it. *)
Theorem refraction_pulls_inward (u : Uniforms) (v_uv : vec2) :
  Domain.well_defined u -> 1 <= u_ior u -> 0 <= u_dist u ->
  (0 <= v2x (p u v_uv) -> v2x (uvG u v_uv) <= v2x v_uv) /\
  (v2x (p u v_uv) <= 0 -> v2x v_uv <= v2x (uvG u v_uv)) /\
  (0 <= v2y (p u v_uv) -> v2y (uvG u v_uv) <= v2y v_uv) /\
  (v2y (p u v_uv) <= 0 -> v2y v_uv <= v2y (uvG u v_uv)).
Proof.
  intros [Hw [Hh _]] Hior Hdist.
  destruct (rG_xy_multiple u v_uv Hior) as [c [Hc [Hx Hy]]].
  destruct (N_x_multiple u v_uv) as [kx [Hkx HNx]].
  destruct (N_y_multiple u v_uv) as [ky [Hky HNy]].
  destruct (scaleInv_nonneg u Hw Hh Hdist) as [Hsx Hsy].
  unfold uvG, add2, mul2, xy. cbn [v2x v2y].
  rewrite Hx, Hy, HNx, HNy.
  set (sx := v2x (scaleInv u)) in *. set (sy := v2y (scaleInv u)) in *.
  set (px := v2x (p u v_uv)). set (py := v2y (p u v_uv)).
  assert (0 <= c * kx) by nra. assert (0 <= c * ky) by nra.
  assert (0 <= c * kx * sx) by nra. assert (0 <= c * ky * sy) by nra.
  repeat split; intros Hp; nra.
Qed.

Lemma refraction_pulls_inward_witness :
  v2x (uvG Inputs.panel40 (Vec2 0.75 0.5)) <= 0.75.
Proof.
  apply (refraction_pulls_inward Inputs.panel40 (Vec2 0.75 0.5)).
  - exact well_defined_panel40.
  - simpl. lra.
  - simpl. lra.
  - rewrite p_panel40_right. simpl. lra.
Defined.

(** X9.  With an index of refraction of exactly 1 the green ray is
    the incident ray: nothing is displaced. *)
Theorem unit_index_no_refraction (u : Uniforms) (v_uv : vec2) :
  Domain.well_defined u -> u_ior u = 1 ->
  rG u v_uv = Vec3 0 0 (-1) /\ uvG u v_uv = v_uv.
Proof.
  intros _ Hior.
  assert (HrG : rG u v_uv = I).
  { rewrite (tir_unreachable u v_uv) by lra.
    rewrite Hior. replace (1 / 1) with 1 by field.
    pose proof (N_z_range u v_uv) as Hz.
    set (n := N u v_uv) in *.
    assert (Hk : 0 <= 1 - 1 * 1 * (1 - v3z n * v3z n)) by nra.
    rewrite (refract_components n 1 Hk).
    replace (1 - 1 * 1 * (1 - v3z n * v3z n)) with (v3z n * v3z n) by ring.
    rewrite sqrt_square by lra.
    unfold I. apply vec3_eq; ring. }
  split; [exact HrG|apply uvG_unbent; exact HrG].
Qed.

Lemma unit_index_no_refraction_witness :
  uvG (Inputs.tiny 1 0.25 1 1 1 0.8) Inputs.right_edge = Inputs.right_edge.
Proof.
  apply (unit_index_no_refraction (Inputs.tiny 1 0.25 1 1 1 0.8)
                                  Inputs.right_edge).
  - unfold Domain.well_defined. simpl. lra.
  - reflexivity.
Defined.

(** X10.  The blue ray is never totally reflected: its index is
    clamped to at least 1.001, so [refract] returns a ray of length 1
    and the fallback to the green ray is never taken. *)
Theorem blue_ray_never_reflected (u : Uniforms) (v_uv : vec2) :
  Domain.well_defined u ->
  dot3 (refract I (N u v_uv) (1 / Rmax (u_ior u - u_ca u * 12) 1.001))
       (refract I (N u v_uv) (1 / Rmax (u_ior u - u_ca u * 12) 1.001))
  = 1.
Proof.
  intros _.
  pose proof (Rmax_r (u_ior u - u_ca u * 12) 1.001) as Hm.
  assert (Hone : 1 <= Rmax (u_ior u - u_ca u * 12) 1.001) by lra.
  apply refract_unit; [apply N_dot|].
  rewrite dot_I.
  destruct (bend_coefficient (1 / Rmax (u_ior u - u_ca u * 12) 1.001)
              (v3z (N u v_uv))
              (inv_ior_range _ Hone) (N_z_range u v_uv)) as [Hk _].
  replace (- v3z (N u v_uv) * - v3z (N u v_uv))
    with (v3z (N u v_uv) * v3z (N u v_uv)) by ring.
  exact Hk.
Qed.

Lemma blue_ray_never_reflected_witness :
  dot3 (refract I (N Inputs.panel40 (Vec2 0.75 0.5))
          (1 / Rmax (u_ior Inputs.panel40 - u_ca Inputs.panel40 * 12) 1.001))
       (refract I (N Inputs.panel40 (Vec2 0.75 0.5))
          (1 / Rmax (u_ior Inputs.panel40 - u_ca Inputs.panel40 * 12) 1.001))
  = 1.
Proof.
  apply (blue_ray_never_reflected Inputs.panel40 (Vec2 0.75 0.5)).
  exact well_defined_panel40.
Defined.

Lemma unit_component_x (a : vec3) : dot3 a a = 1 -> Rabs (v3x a) <= 1.
Proof.
  unfold dot3. intros H. apply Rabs_le.
  set (x := v3x a) in *. set (y := v3y a) in *. set (z := v3z a) in *.
  split; nra.
Qed.

Lemma unit_component_y (a : vec3) : dot3 a a = 1 -> Rabs (v3y a) <= 1.
Proof.
  unfold dot3. intros H. apply Rabs_le.
  set (x := v3x a) in *. set (y := v3y a) in *. set (z := v3z a) in *.
  split; nra.
Qed.

(** X11.  The green sample coordinate is displaced by at most
    [scaleInv] on each axis, that is by at most
    [length(res) * 0.1 * u_dist] pixels. *)
Theorem displacement_bounded (u : Uniforms) (v_uv : vec2) :
  Domain.well_defined u -> 0 <= u_dist u ->
  Rabs (v2x (uvG u v_uv) - v2x v_uv) <= v2x (scaleInv u) /\
  Rabs (v2y (uvG u v_uv) - v2y v_uv) <= v2y (scaleInv u) /\
  v2x (scaleInv u) * width u = length2 (res u) * 0.1 * u_dist u /\
  v2y (scaleInv u) * height u = length2 (res u) * 0.1 * u_dist u.
Proof.
  intros [Hw [Hh _]] Hdist.
  destruct (scaleInv_nonneg u Hw Hh Hdist) as [Hsx Hsy].
  pose proof (unit_component_x _ (rG_dot u v_uv)) as Hx.
  pose proof (unit_component_y _ (rG_dot u v_uv)) as Hy.
  split; [|split; [|split]].
  - unfold uvG, add2, mul2, xy. cbn [v2x v2y].
    replace (v2x v_uv + v3x (rG u v_uv) * v2x (scaleInv u) - v2x v_uv)
      with (v3x (rG u v_uv) * v2x (scaleInv u)) by ring.
    rewrite Rabs_mult, (Rabs_right (v2x (scaleInv u))) by lra.
    pose proof (Rabs_pos (v3x (rG u v_uv))). nra.
  - unfold uvG, add2, mul2, xy. cbn [v2x v2y].
    replace (v2y v_uv + v3y (rG u v_uv) * v2y (scaleInv u) - v2y v_uv)
      with (v3y (rG u v_uv) * v2y (scaleInv u)) by ring.
    rewrite Rabs_mult, (Rabs_right (v2y (scaleInv u))) by lra.
    pose proof (Rabs_pos (v3y (rG u v_uv))). nra.
  - unfold scaleInv, smul2, invRes, sdiv2. cbn [v2x v2y res]. field. lra.
  - unfold scaleInv, smul2, invRes, sdiv2. cbn [v2x v2y res]. field. lra.
Qed.

Lemma displacement_bounded_witness :
  Rabs (v2x (uvG Inputs.panel40 (Vec2 0.75 0.5)) - 0.75)
  <= v2x (scaleInv Inputs.panel40).
Proof.
  apply (displacement_bounded Inputs.panel40 (Vec2 0.75 0.5)).
  - exact well_defined_panel40.
  - simpl. lra.
Defined.

(** ** Undisplaced samples *)

Lemma three_taps_value (tex : vec2 -> vec3) (c invRes : vec2) (blur : R) :
  value (cR <- tap tex c invRes blur ;;
         cG <- tap tex c invRes blur ;;
         cB <- tap tex c invRes blur ;;
         ret (Vec3 (v3x cR) (v3y cG) (v3z cB)))
  = value (tap tex c invRes blur).
Proof.
  rewrite !value_bind. unfold ret, value at 1. cbn [fst].
  apply vec3_eta.
Qed.

Lemma add_zero_offset (v : vec2) (r : vec3) (s : vec2) :
  s = Vec2 0 0 \/ xy r = Vec2 0 0 -> add2 v (mul2 (xy r) s) = v.
Proof.
  intros [Hs|Hr].
  - rewrite Hs. destruct v as [x y]. unfold add2, mul2. simpl.
    apply vec2_eq; ring.
  - rewrite Hr. destruct v as [x y]. unfold add2, mul2. simpl.
    apply vec2_eq; ring.
Qed.

(** With no distortion every ray samples at the pixel's own
    coordinate. *)
Lemma col0_no_scale (tex : vec2 -> vec3) (u : Uniforms) (v_uv : vec2) :
  scaleInv u = Vec2 0 0 ->
  value (col0 tex u v_uv) = value (tap tex v_uv (invRes u) (u_blur u)).
Proof.
  intros Hs. unfold col0, uvG.
  rewrite !add_zero_offset by (left; exact Hs).
  destruct (Rgt_dec (u_ca u) 0.001) as [_|_];
    [apply three_taps_value|reflexivity].
Qed.

(** X12.  With a distortion scale of 0 nothing is displaced, with or
    without chromatic aberration: the sampled colour is the blurred
    background at the pixel's own coordinate. *)
Theorem no_distortion_no_displacement (tex : vec2 -> vec3) (u : Uniforms)
        (v_uv : vec2) :
  Domain.well_defined u -> u_dist u = 0 ->
  uvG u v_uv = v_uv /\
  value (col0 tex u v_uv) = value (tap tex v_uv (invRes u) (u_blur u)).
Proof.
  intros _ Hdist.
  assert (Hs : scaleInv u = Vec2 0 0).
  { unfold scaleInv, smul2. rewrite Hdist. apply vec2_eq; ring. }
  split.
  - unfold uvG. apply add_zero_offset. left. exact Hs.
  - apply col0_no_scale. exact Hs.
Qed.

Lemma no_distortion_no_displacement_witness :
  uvG (mkUniforms 40 40 1.45 0.008 0 12 0.25 1 1 1 0.8 2) (Vec2 0.75 0.5)
  = Vec2 0.75 0.5.
Proof.
  apply (no_distortion_no_displacement Inputs.grey
           (mkUniforms 40 40 1.45 0.008 0 12 0.25 1 1 1 0.8 2) (Vec2 0.75 0.5)).
  - unfold Domain.well_defined. simpl. lra.
  - reflexivity.
Defined.

(** ** The centre of the panel *)

Lemma refract_flat (eta : R) : refract I (Vec3 0 0 1) eta = I.
Proof.
  assert (Hk : 0 <= 1 - eta * eta * (1 - v3z (Vec3 0 0 1) * v3z (Vec3 0 0 1)))
    by (simpl; lra).
  rewrite (refract_components _ _ Hk). simpl.
  replace (1 - eta * eta * (1 - 1 * 1)) with 1 by ring.
  rewrite sqrt_1. unfold I. apply vec3_eq; ring.
Qed.

Lemma keep_I (fallback : vec3) :
  (if Rlt_dec (dot3 I I) 0.001 then fallback else I) = I.
Proof.
  rewrite dot_I_I. destruct (Rlt_dec 1 0.001) as [Hlt|_]; [lra|reflexivity].
Qed.

(** Where the normal is [(0, 0, 1)] no ray is bent. *)
Lemma col0_flat (tex : vec2 -> vec3) (u : Uniforms) (v_uv : vec2) :
  N u v_uv = Vec3 0 0 1 ->
  uvG u v_uv = v_uv /\
  value (col0 tex u v_uv) = value (tap tex v_uv (invRes u) (u_blur u)).
Proof.
  intros HN.
  assert (HrG : rG u v_uv = I).
  { unfold rG. rewrite HN, refract_flat. apply keep_I. }
  assert (HuvG : uvG u v_uv = v_uv) by (apply uvG_unbent; exact HrG).
  split; [exact HuvG|].
  unfold col0. rewrite HuvG, HN, !refract_flat, !keep_I.
  rewrite !add_zero_offset by (right; reflexivity).
  destruct (Rgt_dec (u_ca u) 0.001) as [_|_];
    [apply three_taps_value|reflexivity].
Qed.

Lemma lit_flat (u : Uniforms) (v_uv : vec2) (col : vec3) :
  N u v_uv = Vec3 0 0 1 -> ht u v_uv = 1 ->
  lit u v_uv col
  = let c := add3 col (smul3 (spec_chain 0.95156) (Vec3 1.0 0.98 0.95)) in
    mix3 c (mul3 c (Vec3 (u_tint_r u) (u_tint_g u) (u_tint_b u)))
         (u_tint_a u).
Proof.
  intros HN Hht. unfold lit, fres, fBase, nz, spec, sb. rewrite HN, Hht.
  assert (Hsb : Rmax (dot3 (Vec3 0 0 1) HALF_VEC) 0 = 0.95156).
  { unfold dot3, HALF_VEC. simpl. rewrite Rmax_left by lra. ring. }
  rewrite Hsb. cbn [v3z]. rewrite (Rmax_left 1 0) by lra.
  set (S := spec_chain 0.95156).
  destruct col as [r g b].
  unfold add3, smul3, mul3, adds3, mix3, mix. cbn [v3x v3y v3z].
  apply vec3_eq; ring.
Qed.

(** X13.  At the centre of a panel at least 3 pixels wide and high the
    output is the blurred background at the centre plus the fixed
    specular term of the flat normal, tinted: no displacement, no
    Fresnel term, no brightening and no background mix. *)
Theorem centre_output (tex : vec2 -> vec3) (u : Uniforms) (v_uv : vec2) :
  Domain.well_defined u ->
  p u v_uv = Vec2 0 0 ->
  1.5 <= v2x (hs u) -> 1.5 <= v2y (hs u) ->
  value (main tex u v_uv)
  = let c := add3 (value (tap tex v_uv (invRes u) (u_blur u)))
                  (smul3 (spec_chain 0.95156) (Vec3 1.0 0.98 0.95)) in
    Vec4 (mix3 c (mul3 c (Vec3 (u_tint_r u) (u_tint_g u) (u_tint_b u)))
               (u_tint_a u))
         1.
Proof.
  intros _ Hp Hx Hy.
  assert (HN : N u v_uv = Vec3 0 0 1) by (apply N_centre; exact Hp).
  assert (Hht : ht u v_uv = 1) by (apply ht_centre; exact Hp).
  assert (Hd : d u v_uv <= -1.5).
  { unfold d. rewrite Hp, sdf_origin.
    apply Rmin_case_strong; intros; lra. }
  destruct (col0_flat tex u v_uv HN) as [_ Hcol].
  rewrite value_main, (edge_interior u v_uv Hd), mix3_one, Hcol.
  rewrite (lit_flat u v_uv _ HN Hht). cbv zeta. f_equal. lra.
Qed.

Lemma centre_output_witness :
  value (main Inputs.grey Inputs.panel40 (Vec2 0.5 0.5))
  = let c := add3 (value (tap Inputs.grey (Vec2 0.5 0.5)
                              (invRes Inputs.panel40) (u_blur Inputs.panel40)))
                  (smul3 (spec_chain 0.95156) (Vec3 1.0 0.98 0.95)) in
    Vec4 (mix3 c (mul3 c (Vec3 (u_tint_r Inputs.panel40)
                               (u_tint_g Inputs.panel40)
                               (u_tint_b Inputs.panel40)))
               (u_tint_a Inputs.panel40))
         1.
Proof.
  apply (centre_output Inputs.grey Inputs.panel40 (Vec2 0.5 0.5)).
  - exact well_defined_panel40.
  - exact p_panel40_centre.
  - rewrite hs_panel40. simpl. lra.
  - rewrite hs_panel40. simpl. lra.
Defined.

(** ** The blur kernel *)

Lemma tap_average (tex : vec2 -> vec3) (uv invRes : vec2) (blur : R) :
  ~ blur < 0.5 ->
  tap tex uv invRes blur
  = (Spiral.average tex uv invRes blur,
     map (Spiral.coord uv invRes blur) (seq 0 12)).
Proof.
  intros Hblur. unfold tap.
  destruct (Rlt_dec blur 0.5) as [Hlt|_]; [contradiction|].
  rewrite tap_loop_spec. unfold bind, ret. rewrite app_nil_r.
  f_equal. unfold Spiral.average.
  set (S := Spiral.sum3 _). destruct S as [a b c].
  unfold muls3, divs3, add3, INV_N. simpl. apply vec3_eq; lra.
Qed.

Lemma sum3_within (tex : vec2 -> vec3) (lo hi : R) (cs : list vec2) :
  (forall c : vec2, within lo hi (tex c)) ->
  within (INR (List.length cs) * lo) (INR (List.length cs) * hi)
         (Spiral.sum3 (map tex cs)).
Proof.
  intros Htex. induction cs as [|c cs IH].
  - unfold within. simpl. lra.
  - cbn [map List.length Spiral.sum3 fold_right].
    fold (Spiral.sum3 (map tex cs)).
    rewrite S_INR. destruct (Htex c) as [Hx [Hy Hz]].
    destruct IH as [IHx [IHy IHz]].
    unfold within, add3. cbn [v3x v3y v3z].
    repeat split; lra.
Qed.

(** X14.  The blurred sample never leaves the range of the texture: if
    every channel of every texel lies in [[lo, hi]], so does every
    channel of [tap]; a uniform background is returned unchanged. *)
Theorem tap_within_texture_range (tex : vec2 -> vec3) (uv invRes : vec2)
        (blur lo hi : R) :
  (forall c : vec2, within lo hi (tex c)) ->
  within lo hi (value (tap tex uv invRes blur)).
Proof.
  intros Htex. destruct (Rlt_dec blur 0.5) as [Hlt|Hge].
  - rewrite tap_single by assumption. apply Htex.
  - rewrite tap_average by assumption. unfold value. cbn [fst].
    unfold Spiral.average.
    pose proof (sum3_within tex lo hi
                  (map (Spiral.coord uv invRes blur) (seq 0 12)) Htex) as Hs.
    rewrite length_map, length_seq in Hs.
    replace (INR 12) with 12 in Hs by (simpl; lra).
    destruct Hs as [Hx [Hy Hz]].
    unfold within, divs3. cbn [v3x v3y v3z].
    repeat split; lra.
Qed.

Lemma tap_within_texture_range_witness :
  within 0.5 0.5 (value (tap Inputs.grey (Vec2 0.75 0.5) (Vec2 0.025 0.025) 2)).
Proof.
  apply (tap_within_texture_range Inputs.grey (Vec2 0.75 0.5)
           (Vec2 0.025 0.025) 2 0.5 0.5).
  intros c. unfold within, Inputs.grey. simpl. lra.
Defined.

Lemma clamp_uv_in_range (invRes c : vec2) :
  v2x invRes <= 1 - v2x invRes -> v2y invRes <= 1 - v2y invRes ->
  in_clamp_range invRes (Spiral.clamp_uv c invRes).
Proof.
  intros Hx Hy. unfold in_clamp_range, Spiral.clamp_uv. cbn [v2x v2y].
  split; apply clamp_range; assumption.
Qed.

(** X15.  When the texture is at least two pixels wide and high
    ([invRes <= 1/2] on each axis) every coordinate that [tap] reads
    lies in [[invRes, 1 - invRes]] on each axis. *)
Theorem tap_reads_in_range (tex : vec2 -> vec3) (uv invRes : vec2) (blur : R) :
  v2x invRes <= 1 / 2 -> v2y invRes <= 1 / 2 ->
  Forall (in_clamp_range invRes) (reads (tap tex uv invRes blur)).
Proof.
  intros Hx Hy.
  assert (Hx' : v2x invRes <= 1 - v2x invRes) by lra.
  assert (Hy' : v2y invRes <= 1 - v2y invRes) by lra.
  destruct (Rlt_dec blur 0.5) as [Hlt|Hge].
  - rewrite tap_single by assumption. unfold reads. cbn [snd].
    apply Forall_cons; [|apply Forall_nil].
    apply clamp_uv_in_range; assumption.
  - rewrite tap_average by assumption. unfold reads. cbn [snd].
    apply Forall_forall. intros c Hin.
    apply in_map_iff in Hin. destruct Hin as [i [Hc _]]. subst c.
    unfold Spiral.coord. apply clamp_uv_in_range; assumption.
Qed.

Lemma tap_reads_in_range_witness :
  Forall (in_clamp_range (Vec2 0.025 0.025))
         (reads (tap Inputs.grey (Vec2 1.5 (-3)) (Vec2 0.025 0.025) 2)).
Proof.
  apply (tap_reads_in_range Inputs.grey (Vec2 1.5 (-3)) (Vec2 0.025 0.025) 2).
  - simpl. lra.
  - simpl. lra.
Defined.

Lemma tap_read_count (tex : vec2 -> vec3) (uv invRes : vec2) (blur : R) :
  List.length (reads (tap tex uv invRes blur))
  = if Rlt_dec blur 0.5 then 1%nat else 12%nat.
Proof.
  destruct (Rlt_dec blur 0.5) as [Hlt|Hge].
  - rewrite tap_single by assumption. reflexivity.
  - rewrite tap_average by assumption. unfold reads. cbn [snd].
    rewrite length_map, length_seq. reflexivity.
Qed.

(** X16.  The number of texture reads of [main]: one call of [tap]
    without chromatic aberration and three with it, each of 1 read
    without blur and 12 with it, and one more read, the last, for the
    background at the pixel's own coordinate. *)
Theorem main_read_count (tex : vec2 -> vec3) (u : Uniforms) (v_uv : vec2) :
  List.length (reads (main tex u v_uv))
  = ((if Rgt_dec (u_ca u) 0.001 then 3 else 1)
     * (if Rlt_dec (u_blur u) 0.5 then 1 else 12) + 1)%nat /\
  last (reads (main tex u v_uv)) (Vec2 0 0) = v_uv.
Proof.
  unfold main. rewrite reads_bind, reads_bind.
  unfold ret at 1, texture2D at 1, reads at 2 3. cbn [snd app].
  split.
  - rewrite length_app. cbn [List.length].
    unfold col0.
    destruct (Rgt_dec (u_ca u) 0.001) as [_|_].
    + rewrite !reads_bind. unfold ret at 1, reads at 4. cbn [snd].
      rewrite app_nil_r, !length_app, !tap_read_count.
      destruct (Rlt_dec (u_blur u) 0.5); reflexivity.
    + rewrite tap_read_count.
      destruct (Rlt_dec (u_blur u) 0.5); reflexivity.
  - apply last_last.
Qed.

(** ** The size of the lighting terms *)

(** Cauchy-Schwarz in three dimensions. *)
Lemma dot3_square_le (a b : vec3) :
  dot3 a b * dot3 a b <= dot3 a a * dot3 b b.
Proof.
  destruct a as [a1 a2 a3]. destruct b as [b1 b2 b3].
  unfold dot3. cbn [v3x v3y v3z].
  pose proof (Rle_0_sqr (a1 * b2 - a2 * b1)) as H12.
  pose proof (Rle_0_sqr (a1 * b3 - a3 * b1)) as H13.
  pose proof (Rle_0_sqr (a2 * b3 - a3 * b2)) as H23.
  unfold Rsqr in *.
  assert (Hid : (a1 * a1 + a2 * a2 + a3 * a3) * (b1 * b1 + b2 * b2 + b3 * b3)
                - (a1 * b1 + a2 * b2 + a3 * b3) * (a1 * b1 + a2 * b2 + a3 * b3)
                = (a1 * b2 - a2 * b1) * (a1 * b2 - a2 * b1)
                  + (a1 * b3 - a3 * b1) * (a1 * b3 - a3 * b1)
                  + (a2 * b3 - a3 * b2) * (a2 * b3 - a3 * b2)) by ring.
  lra.
Qed.

Lemma HALF_VEC_short : dot3 HALF_VEC HALF_VEC < 1.
Proof. unfold dot3, HALF_VEC. simpl. lra. Qed.

Lemma sb_range (u : Uniforms) (v_uv : vec2) : 0 <= sb u v_uv < 1.
Proof.
  unfold sb. pose proof (dot3_square_le (N u v_uv) HALF_VEC) as HCS.
  rewrite N_dot in HCS. pose proof HALF_VEC_short as HH.
  revert HCS HH.
  generalize (dot3 (N u v_uv) HALF_VEC) (dot3 HALF_VEC HALF_VEC).
  intros x h HCS HH.
  assert (Hx : x < 1).
  { destruct (Rlt_le_dec x 1) as [Hlt|Hge]; [exact Hlt|].
    assert (1 <= x * x) by nra. lra. }
  apply Rmax_case_strong; intros Hc; lra.
Qed.

Lemma spec_chain_range (x : R) : 0 <= x <= 1 -> 0 <= spec_chain x <= 0.45.
Proof.
  intros Hx. unfold spec_chain. cbv zeta.
  assert (H2 : 0 <= x * x <= 1) by nra.
  set (s2 := x * x) in *.
  assert (H4 : 0 <= s2 * s2 <= 1) by nra.
  set (s4 := s2 * s2) in *.
  assert (H8 : 0 <= s4 * s4 <= 1) by nra.
  set (s8 := s4 * s4) in *.
  assert (H16 : 0 <= s8 * s8 <= 1) by nra.
  set (s16 := s8 * s8) in *.
  assert (H32 : 0 <= s16 * s16 <= 1) by nra.
  set (s32 := s16 * s16) in *.
  assert (H64 : 0 <= s32 * s32 <= 1) by nra.
  set (s64 := s32 * s32) in *.
  assert (H80 : 0 <= s64 * s16 <= 1) by nra.
  lra.
Qed.

(** X17.  The lighting terms are small and never negative: the Fresnel
    base lies in [[0, 1)], so the Fresnel term lies between 0 and
    [u_fres]; the specular term lies in [[0, 0.45]]; the brightening
    lies in [[0, 0.012)]. *)
Theorem lighting_bounds (u : Uniforms) (v_uv : vec2) :
  well_defined u ->
  0 <= fBase u v_uv < 1 /\
  (0 <= u_fres u -> 0 <= fres u v_uv <= u_fres u) /\
  0 <= spec u v_uv <= 0.45 /\
  0 <= (1 - ht u v_uv) * 0.012 < 0.012.
Proof.
  intros _.
  assert (HF : 0 <= fBase u v_uv < 1).
  { unfold fBase, nz. pose proof (N_z_range u v_uv) as Hz.
    rewrite Rmax_left by lra. lra. }
  split; [exact HF|]. split; [|split].
  - intros Hf. unfold fres. set (F := fBase u v_uv) in *.
    assert (0 <= F * F <= 1) by nra.
    assert (0 <= F * F * F <= 1) by nra.
    split; nra.
  - unfold spec. apply spec_chain_range.
    pose proof (sb_range u v_uv). lra.
  - pose proof (ht_range u v_uv). lra.
Qed.

Lemma lighting_bounds_witness :
  0 <= spec Inputs.panel40 (Vec2 0.75 0.5) <= 0.45.
Proof.
  apply (lighting_bounds Inputs.panel40 (Vec2 0.75 0.5)).
  exact well_defined_panel40.
Defined.

(** ** The precomputed light vectors *)

Lemma sqrt_below (b x : R) : 0 < b -> 0 <= x < b * b -> sqrt x < b.
Proof.
  intros Hb Hx. rewrite <- (sqrt_square b) by lra.
  apply sqrt_lt_1_alt. exact Hx.
Qed.

(** Bounds [a] and [b] on an inverse, from bounds on the number. *)
Lemma inv_between (lo hi a b x : R) :
  0 < lo -> lo < x < hi -> hi * a < 1 -> 1 < lo * b -> 0 < a ->
  a < / x < b.
Proof.
  intros Hlo [Hl Hh] Ha Hb Ha0.
  assert (Hi : 0 < / x) by (apply Rinv_0_lt_compat; lra).
  assert (Hxi : x * / x = 1) by (apply Rinv_r; lra).
  split.
  - destruct (Rlt_le_dec a (/ x)) as [Hlt|Hge]; [exact Hlt|].
    assert (x * / x <= hi * a) by nra. lra.
  - destruct (Rlt_le_dec (/ x) b) as [Hlt|Hge]; [exact Hlt|].
    assert (lo * b <= x * / x) by nra. lra.
Qed.

(** X18.  The two light vectors are the normalised vectors their
    comments name, to the precision of the literals: [LIGHT_DIR] is
    within 1e-5 of [normalize(vec3(-0.4, 0.6, 1.0))] and [HALF_VEC]
    within 5e-5 of [normalize(LIGHT_DIR + vec3(0, 0, 1))], on every
    component. *)
Theorem light_vectors_precomputed :
  (let l := normalize (Vec3 (-0.4) 0.6 1.0) in
   Rabs (v3x LIGHT_DIR - v3x l) <= 1e-5 /\
   Rabs (v3y LIGHT_DIR - v3y l) <= 1e-5 /\
   Rabs (v3z LIGHT_DIR - v3z l) <= 1e-5) /\
  (let h := normalize (add3 LIGHT_DIR (Vec3 0 0 1)) in
   Rabs (v3x HALF_VEC - v3x h) <= 5e-5 /\
   Rabs (v3y HALF_VEC - v3y h) <= 5e-5 /\
   Rabs (v3z HALF_VEC - v3z h) <= 5e-5).
Proof.
  split.
  - cbv zeta. unfold normalize, divs3, length3, dot3, LIGHT_DIR.
    cbn [v3x v3y v3z].
    assert (HL : 1.23288 < sqrt (-0.4 * -0.4 + 0.6 * 0.6 + 1.0 * 1.0) < 1.232885).
    { split; [apply sqrt_above|apply sqrt_below]; lra. }
    pose proof (inv_between 1.23288 1.232885 0.811105 0.81111 _
                  ltac:(lra) HL ltac:(lra) ltac:(lra) ltac:(lra)) as Hb.
    unfold Rdiv. revert Hb.
    generalize (/ sqrt (-0.4 * -0.4 + 0.6 * 0.6 + 1.0 * 1.0)).
    intros i Hb.
    repeat split; apply Rabs_le; lra.
  - cbv zeta. unfold normalize, divs3, length3, dot3, add3, LIGHT_DIR, HALF_VEC.
    cbn [v3x v3y v3z].
    assert (HL : 1.9032
                 < sqrt ((-0.32444 + 0) * (-0.32444 + 0)
                         + (0.48666 + 0) * (0.48666 + 0)
                         + (0.81110 + 1) * (0.81110 + 1))
                 < 1.90321).
    { split; [apply sqrt_above|apply sqrt_below]; lra. }
    pose proof (inv_between 1.9032 1.90321 0.52542 0.525431 _
                  ltac:(lra) HL ltac:(lra) ltac:(lra) ltac:(lra)) as Hb.
    unfold Rdiv. revert Hb.
    generalize (/ sqrt ((-0.32444 + 0) * (-0.32444 + 0)
                        + (0.48666 + 0) * (0.48666 + 0)
                        + (0.81110 + 1) * (0.81110 + 1))).
    intros i Hb.
    repeat split; apply Rabs_le; lra.
Qed.

End ShaderMore.

(** * Further properties of the effect *)

Module EffectMore.
Import Effect EffectSetters EffectFacts.

Lemma le0_false (x : R) : 0 < x -> le0 x = false.
Proof. intros Hx. unfold le0. destruct (Rle_dec x 0); [lra|reflexivity]. Qed.


Lemma strict_neq_refl (x : R) : strict_neq x x = false.
Proof.
  unfold strict_neq. destruct (Req_dec_T x x) as [_|Hne];
    [reflexivity|contradiction].
Qed.

Lemma strict_neq_true (x y : R) : x <> y -> strict_neq x y = true.
Proof.
  intros Hne. unfold strict_neq.
  destruct (Req_dec_T x y) as [Heq|_]; [contradiction|reflexivity].
Qed.


(** The effect after a paint that went through. *)
Lemma paint_after (w h : R) (this : State) :
  0 < w -> 0 < h ->
  after (vfunc_paint_target (Some (mkActor w h)) this)
  = {| _ior := _ior this; _ca := _ca this; _dist := _dist this;
       _cr := _cr this; _fres := _fres this; _blur := _blur this;
       _tint := _tint this; _dirty := false; _lastW := w; _lastH := h |}.
Proof.
  intros Hw Hh. unfold vfunc_paint_target. cbn [get_width get_height].
  rewrite (le0_false w Hw), (le0_false h Hh). cbn [orb].
  destruct (Req_dec_T w (_lastW this)) as [Ew|Nw];
    [destruct (Req_dec_T h (_lastH this)) as [Eh|Nh]|].
  - rewrite Ew, Eh, !strict_neq_refl. cbn [orb].
    destruct this as [i c dd r f b t dirty lw lh]. cbn.
    destruct dirty; reflexivity.
  - rewrite (strict_neq_true h _ Nh), orb_true_r.
    destruct this as [i c dd r f b t dirty lw lh]. cbn.
    destruct dirty; reflexivity.
  - rewrite (strict_neq_true w _ Nw). cbn [orb].
    destruct this as [i c dd r f b t dirty lw lh]. cbn.
    destruct dirty; reflexivity.
Qed.

(** A paint of a clean effect whose actor has kept its size. *)
Lemma paint_clean (w h : R) (this : State) :
  0 < w -> 0 < h ->
  _dirty this = false -> _lastW this = w -> _lastH this = h ->
  vfunc_paint_target (Some (mkActor w h)) this = mkPainted this [] true.
Proof.
  intros Hw Hh Hd HW HH. unfold vfunc_paint_target.
  cbn [get_width get_height].
  rewrite (le0_false w Hw), (le0_false h Hh). cbn [orb].
  rewrite <- HW, <- HH, !strict_neq_refl. cbn [orb]. rewrite Hd.
  reflexivity.
Qed.

(** X20.  Painting is idempotent: straight after a paint that went
    through, a second paint on the same actor uploads nothing and
    leaves the effect unchanged. *)
Theorem paint_twice (actor : Actor) (this : State) :
  0 < get_width actor -> 0 < get_height actor ->
  vfunc_paint_target (Some actor)
    (after (vfunc_paint_target (Some actor) this))
  = mkPainted (after (vfunc_paint_target (Some actor) this)) [] true.
Proof.
  destruct actor as [w h]. cbn [get_width get_height]. intros Hw Hh.
  rewrite (paint_after w h this Hw Hh).
  apply paint_clean; try assumption; reflexivity.
Qed.

Lemma paint_twice_witness :
  uploads (vfunc_paint_target (Some (mkActor 1920 32))
             (after (vfunc_paint_target (Some (mkActor 1920 32))
                       (_init (mkParams None None None None None None None)))))
  = [].
Proof.
  rewrite (paint_twice (mkActor 1920 32)
             (_init (mkParams None None None None None None None))).
  - reflexivity.
  - simpl. lra.
  - simpl. lra.
Defined.

(** X28.  The first paint of a new effect, whatever its parameters, on
    an actor of positive size uploads each of the twelve uniforms
    exactly once, the size first, and leaves the effect clean with the
    size of the actor recorded. *)
Theorem first_paint_complete (params : Params) (actor : Actor) :
  0 < get_width actor -> 0 < get_height actor ->
  map fst (uploads (vfunc_paint_target (Some actor) (_init params)))
  = ["width"; "height"; "u_ior"; "u_ca"; "u_dist"; "u_cr"; "u_fres";
     "u_blur"; "u_tint_r"; "u_tint_g"; "u_tint_b"; "u_tint_a"]%string /\
  _dirty (after (vfunc_paint_target (Some actor) (_init params))) = false /\
  _lastW (after (vfunc_paint_target (Some actor) (_init params)))
  = get_width actor /\
  _lastH (after (vfunc_paint_target (Some actor) (_init params)))
  = get_height actor.
Proof.
  destruct actor as [w h]. cbn [get_width get_height]. intros Hw Hh.
  rewrite (first_paint_uploads params w h Hw Hh).
  rewrite (paint_after w h _ Hw Hh).
  repeat split.
Qed.

Lemma first_paint_complete_witness :
  _dirty (after (vfunc_paint_target (Some (mkActor 1920 32))
                   (_init (mkParams None None None None None None None))))
  = false.
Proof.
  apply (first_paint_complete (mkParams None None None None None None None)
           (mkActor 1920 32)).
  - simpl. lra.
  - simpl. lra.
Defined.

(** The ten parameter uploads of a dirty effect. *)
Lemma paint_dirty (w h : R) (this : State) :
  0 < w -> 0 < h -> _dirty this = true ->
  exists size_uploads : list Upload,
    uploads (vfunc_paint_target (Some (mkActor w h)) this)
    = size_uploads
      ++ [("u_ior"%string, _ior this - 1e-6);
          ("u_ca"%string, _ca this - 1e-6);
          ("u_dist"%string, _dist this - 1e-6);
          ("u_cr"%string, _cr this - 1e-6);
          ("u_fres"%string, _fres this - 1e-6);
          ("u_blur"%string, _blur this - 1e-6);
          ("u_tint_r"%string, tint0 (_tint this) - 1e-6);
          ("u_tint_g"%string, tint1 (_tint this) - 1e-6);
          ("u_tint_b"%string, tint2 (_tint this) - 1e-6);
          ("u_tint_a"%string, tint3 (_tint this) - 1e-6)].
Proof.
  intros Hw Hh Hd. unfold vfunc_paint_target. cbn [get_width get_height].
  rewrite (le0_false w Hw), (le0_false h Hh). cbn [orb].
  destruct (strict_neq w (_lastW this) || strict_neq h (_lastH this))%bool;
    cbn [_dirty]; rewrite Hd; cbn [uploads]; eexists; reflexivity.
Qed.

(** X21.  A numeric setter called with a new value stores it, marks the
    effect dirty and queues a repaint, and the next paint uploads the
    new value minus 1e-6 under the uniform of that setting and leaves
    the effect clean.  Called with the current value it does nothing:
    no repaint is queued and the effect is unchanged. *)
Theorem setter_then_paint (k : Setting) (v : R) (actor : Actor)
        (this : State) :
  0 < get_width actor -> 0 < get_height actor ->
  (v <> field k this ->
   snd (set k v this) = true /\
   field k (fst (set k v this)) = v /\
   In (uniform k, v - 1e-6)
      (uploads (vfunc_paint_target (Some actor) (fst (set k v this)))) /\
   _dirty (after (vfunc_paint_target (Some actor) (fst (set k v this))))
   = false) /\
  (v = field k this -> set k v this = (this, false)).
Proof.
  destruct actor as [w h]. cbn [get_width get_height]. intros Hw Hh.
  split.
  - intros Hne.
    assert (Hset : snd (set k v this) = true
                   /\ field k (fst (set k v this)) = v
                   /\ _dirty (fst (set k v this)) = true).
    { destruct k; cbn [set field] in *;
        unfold set_ior, set_ca, set_dist, set_cr, set_fres, set_blur;
        destruct (Req_dec_T v _) as [Heq|_]; try contradiction;
        repeat split. }
    destruct Hset as [Hrepaint [Hfield Hdirty]].
    split; [exact Hrepaint|]. split; [exact Hfield|]. split.
    + destruct (paint_dirty w h _ Hw Hh Hdirty) as [sz Hup].
      rewrite Hup. apply in_or_app. right.
      rewrite <- Hfield at 1.
      destruct k; cbn [uniform field]; simpl; tauto.
    + rewrite (paint_after w h _ Hw Hh). reflexivity.
  - intros Heq. destruct k; cbn [set field] in *;
      unfold set_ior, set_ca, set_dist, set_cr, set_fres, set_blur;
      destruct (Req_dec_T v _) as [_|Hne]; try contradiction; reflexivity.
Qed.

Lemma setter_then_paint_witness :
  In ("u_blur"%string, 4 - 1e-6)
     (uploads (vfunc_paint_target (Some (mkActor 1920 32))
                 (fst (set Blur 4
                         (_init (mkParams None None None None None None None)))))).
Proof.
  apply (setter_then_paint Blur 4 (mkActor 1920 32)
           (_init (mkParams None None None None None None None))).
  - simpl. lra.
  - simpl. lra.
  - simpl. lra.
Defined.

End EffectMore.

(** * Properties of the colour strings *)

Module ColourFacts.
Import JS.

(** ** Checks over all code units *)

Lemma all_code_units_complete (c : ascii) : In c all_code_units.
Proof.
  unfold all_code_units. apply in_map_iff.
  exists (nat_of_ascii c). split.
  - apply ascii_nat_embedding.
  - apply in_seq. pose proof (nat_ascii_bounded c). lia.
Qed.

Lemma for_all_code_units (P : ascii -> bool) :
  forallb P all_code_units = true -> forall c : ascii, P c = true.
Proof.
  intros H c. rewrite forallb_forall in H. apply H.
  apply all_code_units_complete.
Qed.

Lemma for_all_pairs (P : ascii -> ascii -> bool) :
  forallb (fun c1 => forallb (P c1) all_code_units) all_code_units = true ->
  forall c1 c2 : ascii, P c1 c2 = true.
Proof.
  intros H c1 c2.
  pose proof (for_all_code_units _ H c1) as H1. cbv beta in H1.
  exact (for_all_code_units _ H1 c2).
Qed.

Lemma check_digit_all : forall c : ascii, check_digit c = true.
Proof. apply for_all_code_units. vm_compute. reflexivity. Qed.

Lemma check_parse_all : forall c1 c2 : ascii, check_parse c1 c2 = true.
Proof. apply for_all_pairs. vm_compute. reflexivity. Qed.

Lemma check_print_all : forall c1 c2 : ascii, check_print c1 c2 = true.
Proof. apply for_all_pairs. vm_compute. reflexivity. Qed.

Lemma check_byte_all : forallb check_byte (seq 0 256) = true.
Proof. vm_compute. reflexivity. Qed.

Lemma hex_digit_range (c : ascii) (a : Z) :
  hex_digit c = Some a -> (0 <= a <= 15)%Z /\ Ascii.eqb c "#" = false.
Proof.
  intros Hc. pose proof (check_digit_all c) as H.
  unfold check_digit in H. rewrite Hc in H.
  apply andb_prop in H. destruct H as [H Hhash].
  apply andb_prop in H. destruct H as [H0 H15].
  apply Z.leb_le in H0. apply Z.leb_le in H15.
  apply negb_true_iff in Hhash. tauto.
Qed.

Lemma lower_hex_digit (c : ascii) :
  lower_hex c = true -> exists a : Z, hex_digit c = Some a.
Proof.
  intros Hc. pose proof (check_digit_all c) as H.
  unfold check_digit in H. destruct (hex_digit c) as [a|].
  - exists a. reflexivity.
  - rewrite Hc in H. discriminate.
Qed.

Lemma pair_parse (c1 c2 : ascii) (a b : Z) :
  hex_digit c1 = Some a -> hex_digit c2 = Some b ->
  parseInt16 (String c1 (String c2 "")) = Some (16 * a + b)%Z.
Proof.
  intros H1 H2. pose proof (check_parse_all c1 c2) as H.
  unfold check_parse in H. rewrite H1, H2 in H.
  destruct (parseInt16 (String c1 (String c2 ""))) as [n|]; [|discriminate].
  apply Z.eqb_eq in H. rewrite H. reflexivity.
Qed.

Lemma pair_print (c1 c2 : ascii) :
  lower_hex c1 = true -> lower_hex c2 = true ->
  exists n : Z,
    parseInt16 (String c1 (String c2 "")) = Some n /\
    padStart2 (toString16 n) = String c1 (String c2 "").
Proof.
  intros H1 H2. pose proof (check_print_all c1 c2) as H.
  unfold check_print in H. rewrite H1, H2 in H. cbn [andb] in H.
  destruct (parseInt16 (String c1 (String c2 ""))) as [n|]; [|discriminate].
  exists n. split; [reflexivity|]. apply String.eqb_eq. exact H.
Qed.

Lemma byte_print (n : Z) :
  (0 <= n <= 255)%Z ->
  exists c1 c2 : ascii,
    padStart2 (toString16 n) = String c1 (String c2 "") /\
    lower_hex c1 = true /\ lower_hex c2 = true /\
    parseInt16 (String c1 (String c2 "")) = Some n.
Proof.
  intros Hn. pose proof check_byte_all as H.
  rewrite forallb_forall in H.
  specialize (H (Z.to_nat n)).
  assert (Hin : In (Z.to_nat n) (seq 0 256)) by (apply in_seq; lia).
  specialize (H Hin). unfold check_byte in H.
  rewrite Z2Nat.id in H by lia.
  destruct (padStart2 (toString16 n)) as [|c1 [|c2 [|c3 rest]]];
    try discriminate.
  exists c1, c2.
  apply andb_prop in H. destruct H as [H Hp].
  apply andb_prop in H. destruct H as [H1 H2].
  destruct (parseInt16 (String c1 (String c2 ""))) as [m|]; [|discriminate].
  apply Z.eqb_eq in Hp. subst m. tauto.
Qed.

(** ** Rounding *)

Lemma Math_round_integer (n : Z) : Math_round (IZR n / 255 * 255) = n.
Proof.
  unfold Math_round. symmetry. apply Int_part_spec.
  replace (IZR n / 255 * 255) with (IZR n) by (field; lra). lra.
Qed.

Lemma Math_round_near (x : R) :
  IZR (Math_round x) - 1 / 2 <= x < IZR (Math_round x) + 1 / 2.
Proof.
  unfold Math_round. pose proof (base_Int_part (x + 0.5)) as [Hle Hgt].
  lra.
Qed.

Lemma Math_round_byte (x : R) :
  0 <= x <= 1 -> (0 <= Math_round (x * 255) <= 255)%Z.
Proof.
  intros Hx. pose proof (Math_round_near (x * 255)) as [Hlo Hhi].
  split.
  - assert (H : (-1 < Math_round (x * 255))%Z).
    { apply lt_IZR. replace (IZR (-1)) with (-1) by reflexivity. lra. }
    lia.
  - assert (H : (Math_round (x * 255) < 256)%Z).
    { apply lt_IZR. replace (IZR 256) with 256 by reflexivity. lra. }
    lia.
Qed.

Lemma quantise_near (x : R) : Rabs (quantise x - x) <= 1 / 510.
Proof.
  unfold quantise. pose proof (Math_round_near (x * 255)) as [Hlo Hhi].
  apply Rabs_le. split; lra.
Qed.

(** ** Well-formed colour strings *)

Lemma channel_range (c1 c2 : ascii) (a b : Z) :
  hex_digit c1 = Some a -> hex_digit c2 = Some b -> 0 <= channel a b <= 1.
Proof.
  intros H1 H2.
  destruct (hex_digit_range c1 a H1) as [Ha _].
  destruct (hex_digit_range c2 b H2) as [Hb _].
  unfold channel.
  assert (H0 : IZR 0 <= IZR (16 * a + b)) by (apply IZR_le; lia).
  assert (H255 : IZR (16 * a + b) <= IZR 255) by (apply IZR_le; lia).
  split.
  - apply Rmult_le_pos; [exact H0|]. lra.
  - apply Rmult_le_reg_r with 255; [lra|].
    unfold Rdiv. rewrite Rmult_assoc, Rinv_l by lra. lra.
Qed.

Lemma replace_hash_first (s : string) : replace_hash (String "#" s) = s.
Proof. reflexivity. Qed.

Lemma replace_hash_digit (c : ascii) (a : Z) (s : string) :
  hex_digit c = Some a ->
  replace_hash (String c s) = String c (replace_hash s).
Proof.
  intros Hc. destruct (hex_digit_range c a Hc) as [_ Hhash].
  cbn [replace_hash]. rewrite Hhash. reflexivity.
Qed.

Section EightDigits.
Variables c1 c2 c3 c4 c5 c6 c7 c8 : ascii.
Variables d1 d2 d3 d4 d5 d6 d7 d8 : Z.
Hypothesis H1 : hex_digit c1 = Some d1.
Hypothesis H2 : hex_digit c2 = Some d2.
Hypothesis H3 : hex_digit c3 = Some d3.
Hypothesis H4 : hex_digit c4 = Some d4.
Hypothesis H5 : hex_digit c5 = Some d5.
Hypothesis H6 : hex_digit c6 = Some d6.
Hypothesis H7 : hex_digit c7 = Some d7.
Hypothesis H8 : hex_digit c8 = Some d8.

#[local] Abbreviation rgb := (hex6 c1 c2 c3 c4 c5 c6).
#[local] Abbreviation rgba := (hex8 c1 c2 c3 c4 c5 c6 c7 c8).

Lemma replace_hash_rgba : replace_hash rgba = rgba.
Proof.
  unfold hex8.
  rewrite (replace_hash_digit c1 d1), (replace_hash_digit c2 d2),
    (replace_hash_digit c3 d3), (replace_hash_digit c4 d4),
    (replace_hash_digit c5 d5), (replace_hash_digit c6 d6),
    (replace_hash_digit c7 d7), (replace_hash_digit c8 d8) by assumption.
  reflexivity.
Qed.

(** The channels that the three parsers of the repository read from a
    string without its ['#']. *)
Lemma channels_rgba :
  [div255 (parseInt16 (substring 0 2 rgba));
   div255 (parseInt16 (substring 2 4 rgba));
   div255 (parseInt16 (substring 4 6 rgba));
   if (8 <=? String.length rgba)%nat
   then div255 (parseInt16 (substring 6 8 rgba)) else Some 1.0]
  = [Some (channel d1 d2); Some (channel d3 d4);
     Some (channel d5 d6); Some (channel d7 d8)].
Proof.
  change (substring 0 2 rgba) with (String c1 (String c2 "")).
  change (substring 2 4 rgba) with (String c3 (String c4 "")).
  change (substring 4 6 rgba) with (String c5 (String c6 "")).
  change (substring 6 8 rgba) with (String c7 (String c8 "")).
  change (8 <=? String.length rgba)%nat with true. cbv iota.
  rewrite (pair_parse c1 c2 d1 d2), (pair_parse c3 c4 d3 d4),
    (pair_parse c5 c6 d5 d6), (pair_parse c7 c8 d7 d8) by assumption.
  reflexivity.
Qed.

Lemma channels_rgb :
  [div255 (parseInt16 (substring 0 2 rgb));
   div255 (parseInt16 (substring 2 4 rgb));
   div255 (parseInt16 (substring 4 6 rgb));
   if (8 <=? String.length rgb)%nat
   then div255 (parseInt16 (substring 6 8 rgb)) else Some 1.0]
  = [Some (channel d1 d2); Some (channel d3 d4);
     Some (channel d5 d6); Some 1.0].
Proof.
  change (substring 0 2 rgb) with (String c1 (String c2 "")).
  change (substring 2 4 rgb) with (String c3 (String c4 "")).
  change (substring 4 6 rgb) with (String c5 (String c6 "")).
  change (8 <=? String.length rgb)%nat with false. cbv iota.
  rewrite (pair_parse c1 c2 d1 d2), (pair_parse c3 c4 d3 d4),
    (pair_parse c5 c6 d5 d6) by assumption.
  reflexivity.
Qed.

End EightDigits.

(** X22.  A colour string of eight digits of radix 16, in either
    case, parses to the four channels [n / 255] with [n] the value of
    each pair of digits, all in [[0, 1]]; the ['#'] may be left out; with
    six digits the alpha is 1.0.  The parser of panel.js gives the same
    channels. *)
Theorem parseColor_well_formed (c1 c2 c3 c4 c5 c6 c7 c8 : ascii)
        (d1 d2 d3 d4 d5 d6 d7 d8 : Z) :
  hex_digit c1 = Some d1 -> hex_digit c2 = Some d2 ->
  hex_digit c3 = Some d3 -> hex_digit c4 = Some d4 ->
  hex_digit c5 = Some d5 -> hex_digit c6 = Some d6 ->
  hex_digit c7 = Some d7 -> hex_digit c8 = Some d8 ->
  EffectSetters.parseColor (String "#" (hex8 c1 c2 c3 c4 c5 c6 c7 c8))
  = [Some (channel d1 d2); Some (channel d3 d4);
     Some (channel d5 d6); Some (channel d7 d8)] /\
  EffectSetters.parseColor (hex8 c1 c2 c3 c4 c5 c6 c7 c8)
  = [Some (channel d1 d2); Some (channel d3 d4);
     Some (channel d5 d6); Some (channel d7 d8)] /\
  EffectSetters.parseColor (String "#" (hex6 c1 c2 c3 c4 c5 c6))
  = [Some (channel d1 d2); Some (channel d3 d4);
     Some (channel d5 d6); Some 1.0] /\
  Panel._parseTint (String "#" (hex8 c1 c2 c3 c4 c5 c6 c7 c8))
  = [Some (channel d1 d2); Some (channel d3 d4);
     Some (channel d5 d6); Some (channel d7 d8)] /\
  (0 <= channel d1 d2 <= 1 /\ 0 <= channel d3 d4 <= 1 /\
   0 <= channel d5 d6 <= 1 /\ 0 <= channel d7 d8 <= 1).
Proof.
  intros H1 H2 H3 H4 H5 H6 H7 H8.
  pose proof (channels_rgba c1 c2 c3 c4 c5 c6 c7 c8 d1 d2 d3 d4 d5 d6 d7 d8
                H1 H2 H3 H4 H5 H6 H7 H8) as Hrgba.
  pose proof (channels_rgb c1 c2 c3 c4 c5 c6 d1 d2 d3 d4 d5 d6
                H1 H2 H3 H4 H5 H6) as Hrgb.
  split; [|split; [|split; [|split]]].
  - unfold EffectSetters.parseColor. rewrite replace_hash_first.
    cbv zeta. exact Hrgba.
  - unfold EffectSetters.parseColor.
    rewrite (replace_hash_rgba c1 c2 c3 c4 c5 c6 c7 c8
               d1 d2 d3 d4 d5 d6 d7 d8) by assumption.
    cbv zeta. exact Hrgba.
  - unfold EffectSetters.parseColor. rewrite replace_hash_first.
    cbv zeta. exact Hrgb.
  - unfold Panel._parseTint. rewrite replace_hash_first.
    cbv zeta. exact Hrgba.
  - split; [exact (channel_range c1 c2 d1 d2 H1 H2)|].
    split; [exact (channel_range c3 c4 d3 d4 H3 H4)|].
    split; [exact (channel_range c5 c6 d5 d6 H5 H6)|].
    exact (channel_range c7 c8 d7 d8 H7 H8).
Qed.

Lemma parseColor_well_formed_witness :
  EffectSetters.parseColor "#FFFFFFCC"
  = [Some (channel 15 15); Some (channel 15 15);
     Some (channel 15 15); Some (channel 12 12)].
Proof.
  apply (parseColor_well_formed "F" "F" "F" "F" "F" "F" "C" "C"
           15 15 15 15 15 15 12 12); reflexivity.
Defined.

(** ** Short strings *)

Lemma substring_past (s : string) (n m : nat) :
  (String.length s <= n)%nat -> String.substring n m s = ""%string.
Proof.
  revert n. induction s as [|c s IH]; intros n Hn.
  - destruct n, m; reflexivity.
  - destruct n as [|n]; cbn [String.length] in Hn; [lia|].
    cbn [String.substring]. apply IH. lia.
Qed.

(** X23.  The parser never fails and does not validate: it always
    returns four channels; when fewer than eight code units are left
    after the ['#'] the alpha is 1.0, whatever follows the sixth; a
    channel whose two code units are missing is [NaN]. *)
Theorem parseColor_short (hex : string) :
  List.length (EffectSetters.parseColor hex) = 4%nat /\
  ((String.length (replace_hash hex) < 8)%nat ->
   nth_error (EffectSetters.parseColor hex) 3 = Some (Some 1.0)) /\
  ((String.length (replace_hash hex) <= 4)%nat ->
   nth_error (EffectSetters.parseColor hex) 2 = Some None) /\
  ((String.length (replace_hash hex) <= 2)%nat ->
   nth_error (EffectSetters.parseColor hex) 1 = Some None) /\
  (replace_hash hex = ""%string ->
   EffectSetters.parseColor hex = [None; None; None; Some 1.0]).
Proof.
  unfold EffectSetters.parseColor. cbv zeta.
  split; [reflexivity|]. split; [|split; [|split]].
  - intros Hlen. cbn [nth_error].
    destruct (Nat.leb_spec 8 (String.length (replace_hash hex)));
      [lia|reflexivity].
  - intros Hlen. cbn [nth_error]. unfold substring.
    rewrite substring_past by assumption. reflexivity.
  - intros Hlen. cbn [nth_error]. unfold substring.
    rewrite substring_past by assumption. reflexivity.
  - intros Hempty. rewrite Hempty. reflexivity.
Qed.

(** ** The colour button: printing and parsing *)

Lemma channel_hex_parsed (c1 c2 : ascii) :
  lower_hex c1 = true -> lower_hex c2 = true ->
  Prefs.channel_hex (div255 (parseInt16 (String c1 (String c2 ""))))
  = String c1 (String c2 "").
Proof.
  intros H1 H2. destruct (pair_print c1 c2 H1 H2) as [n [Hparse Hprint]].
  rewrite Hparse. cbn [div255 Prefs.channel_hex].
  rewrite Math_round_integer. exact Hprint.
Qed.

Lemma channel_hex_one : Prefs.channel_hex (Some 1.0) = "ff"%string.
Proof.
  cbn [Prefs.channel_hex].
  replace (1.0 * 255) with (IZR 255 / 255 * 255) by lra.
  rewrite Math_round_integer. reflexivity.
Qed.

(** X24.  Printing a parsed colour gives the string back: for eight
    lower-case digits after the ['#'] the round trip is the identity,
    and for six it appends the alpha ["ff"]. *)
Theorem hex_round_trip (c1 c2 c3 c4 c5 c6 c7 c8 : ascii) :
  lower_hex c1 = true -> lower_hex c2 = true -> lower_hex c3 = true ->
  lower_hex c4 = true -> lower_hex c5 = true -> lower_hex c6 = true ->
  lower_hex c7 = true -> lower_hex c8 = true ->
  Prefs._rgbaToHex (Prefs._hexToRgba (String "#" (hex8 c1 c2 c3 c4 c5 c6 c7 c8)))
  = String "#" (hex8 c1 c2 c3 c4 c5 c6 c7 c8) /\
  Prefs._rgbaToHex (Prefs._hexToRgba (String "#" (hex6 c1 c2 c3 c4 c5 c6)))
  = String "#" (hex8 c1 c2 c3 c4 c5 c6 "f" "f").
Proof.
  intros H1 H2 H3 H4 H5 H6 H7 H8.
  unfold Prefs._rgbaToHex, Prefs._hexToRgba.
  rewrite !replace_hash_first. cbv zeta.
  cbn [Prefs.red Prefs.green Prefs.blue Prefs.alpha].
  split.
  - change (substring 0 2 (hex8 c1 c2 c3 c4 c5 c6 c7 c8))
      with (String c1 (String c2 "")).
    change (substring 2 4 (hex8 c1 c2 c3 c4 c5 c6 c7 c8))
      with (String c3 (String c4 "")).
    change (substring 4 6 (hex8 c1 c2 c3 c4 c5 c6 c7 c8))
      with (String c5 (String c6 "")).
    change (substring 6 8 (hex8 c1 c2 c3 c4 c5 c6 c7 c8))
      with (String c7 (String c8 "")).
    change (8 <=? String.length (hex8 c1 c2 c3 c4 c5 c6 c7 c8))%nat with true.
    cbv iota.
    rewrite !channel_hex_parsed by assumption. reflexivity.
  - change (substring 0 2 (hex6 c1 c2 c3 c4 c5 c6))
      with (String c1 (String c2 "")).
    change (substring 2 4 (hex6 c1 c2 c3 c4 c5 c6))
      with (String c3 (String c4 "")).
    change (substring 4 6 (hex6 c1 c2 c3 c4 c5 c6))
      with (String c5 (String c6 "")).
    change (8 <=? String.length (hex6 c1 c2 c3 c4 c5 c6))%nat with false.
    cbv iota.
    rewrite !channel_hex_parsed by assumption.
    rewrite channel_hex_one. reflexivity.
Qed.

Lemma hex_round_trip_witness :
  Prefs._rgbaToHex (Prefs._hexToRgba "#ffffffcc") = "#ffffffcc"%string.
Proof.
  apply (hex_round_trip "f" "f" "f" "f" "f" "f" "c" "c"); reflexivity.
Defined.

Lemma channel_hex_byte (x : R) :
  0 <= x <= 1 ->
  exists c1 c2 : ascii,
    Prefs.channel_hex (Some x) = String c1 (String c2 "") /\
    div255 (parseInt16 (String c1 (String c2 ""))) = Some (quantise x).
Proof.
  intros Hx. destruct (byte_print _ (Math_round_byte x Hx))
    as [c1 [c2 [Hprint [_ [_ Hparse]]]]].
  exists c1, c2. split.
  - exact Hprint.
  - rewrite Hparse. reflexivity.
Qed.

(** X25.  Parsing a printed colour gives each channel back rounded to
    the nearest multiple of 1/255, so within 1/510 of it, for channels
    in [[0, 1]]. *)
Theorem rgba_round_trip (r g b a : R) :
  0 <= r <= 1 -> 0 <= g <= 1 -> 0 <= b <= 1 -> 0 <= a <= 1 ->
  Prefs._hexToRgba
    (Prefs._rgbaToHex (Prefs.mkRGBA (Some r) (Some g) (Some b) (Some a)))
  = Prefs.mkRGBA (Some (quantise r)) (Some (quantise g))
                 (Some (quantise b)) (Some (quantise a)) /\
  Rabs (quantise r - r) <= 1 / 510 /\ Rabs (quantise g - g) <= 1 / 510 /\
  Rabs (quantise b - b) <= 1 / 510 /\ Rabs (quantise a - a) <= 1 / 510.
Proof.
  intros Hr Hg Hb Ha.
  split; [|repeat split; apply quantise_near].
  destruct (channel_hex_byte r Hr) as [r1 [r2 [Pr Qr]]].
  destruct (channel_hex_byte g Hg) as [g1 [g2 [Pg Qg]]].
  destruct (channel_hex_byte b Hb) as [b1 [b2 [Pb Qb]]].
  destruct (channel_hex_byte a Ha) as [a1 [a2 [Pa Qa]]].
  unfold Prefs._rgbaToHex. cbv zeta.
  cbn [Prefs.red Prefs.green Prefs.blue Prefs.alpha].
  rewrite Pr, Pg, Pb, Pa.
  change ("#" ++ String r1 (String r2 "") ++ String g1 (String g2 "")
              ++ String b1 (String b2 "") ++ String a1 (String a2 ""))%string
    with (String "#" (hex8 r1 r2 g1 g2 b1 b2 a1 a2)).
  unfold Prefs._hexToRgba. rewrite replace_hash_first. cbv zeta.
  change (substring 0 2 (hex8 r1 r2 g1 g2 b1 b2 a1 a2))
    with (String r1 (String r2 "")).
  change (substring 2 4 (hex8 r1 r2 g1 g2 b1 b2 a1 a2))
    with (String g1 (String g2 "")).
  change (substring 4 6 (hex8 r1 r2 g1 g2 b1 b2 a1 a2))
    with (String b1 (String b2 "")).
  change (substring 6 8 (hex8 r1 r2 g1 g2 b1 b2 a1 a2))
    with (String a1 (String a2 "")).
  change (8 <=? String.length (hex8 r1 r2 g1 g2 b1 b2 a1 a2))%nat with true.
  cbv iota. rewrite Qr, Qg, Qb, Qa. reflexivity.
Qed.

Lemma rgba_round_trip_witness : Rabs (quantise 0.8 - 0.8) <= 1 / 510.
Proof.
  apply (rgba_round_trip 0.8 1 1 1); lra.
Defined.

(** ** The tint setter *)

(** X26.  Assigning a well-formed colour string to [tintColor] always
    marks the effect dirty and queues a repaint, whether or not the
    colour changed, and the next paint uploads each channel [n / 255]
    minus 1e-6. *)
Theorem tintColor_then_paint (c1 c2 c3 c4 c5 c6 c7 c8 : ascii)
        (d1 d2 d3 d4 d5 d6 d7 d8 : Z) (actor : Effect.Actor)
        (this : Effect.State) :
  hex_digit c1 = Some d1 -> hex_digit c2 = Some d2 ->
  hex_digit c3 = Some d3 -> hex_digit c4 = Some d4 ->
  hex_digit c5 = Some d5 -> hex_digit c6 = Some d6 ->
  hex_digit c7 = Some d7 -> hex_digit c8 = Some d8 ->
  0 < Effect.get_width actor -> 0 < Effect.get_height actor ->
  exists st : Effect.State,
    EffectSetters.set_tintColor (String "#" (hex8 c1 c2 c3 c4 c5 c6 c7 c8)) this
    = Some (st, true) /\
    Effect._dirty st = true /\
    Effect._tint st
    = Effect.mkTint (channel d1 d2) (channel d3 d4)
                    (channel d5 d6) (channel d7 d8) /\
    incl [("u_tint_r"%string, channel d1 d2 - 1e-6);
          ("u_tint_g"%string, channel d3 d4 - 1e-6);
          ("u_tint_b"%string, channel d5 d6 - 1e-6);
          ("u_tint_a"%string, channel d7 d8 - 1e-6)]
         (Effect.uploads (Effect.vfunc_paint_target (Some actor) st)).
Proof.
  intros H1 H2 H3 H4 H5 H6 H7 H8 Hw Hh.
  destruct actor as [w h]. cbn [Effect.get_width Effect.get_height] in Hw, Hh.
  assert (Hparse :
            EffectSetters.parseColor (String "#" (hex8 c1 c2 c3 c4 c5 c6 c7 c8))
            = [Some (channel d1 d2); Some (channel d3 d4);
               Some (channel d5 d6); Some (channel d7 d8)]).
  { unfold EffectSetters.parseColor. rewrite replace_hash_first. cbv zeta.
    apply channels_rgba; assumption. }
  unfold EffectSetters.set_tintColor. rewrite Hparse.
  cbn [EffectSetters.tint_of].
  eexists. split; [reflexivity|]. split; [reflexivity|].
  split; [reflexivity|].
  edestruct (EffectMore.paint_dirty w h) as [sz Hup];
    [exact Hw|exact Hh| |rewrite Hup].
  - reflexivity.
  - cbn [Effect._tint Effect.tint0 Effect.tint1 Effect.tint2 Effect.tint3].
    intros up Hin. apply in_or_app. right.
    simpl in Hin. simpl. tauto.
Qed.

Lemma tintColor_then_paint_witness :
  exists st : Effect.State,
    EffectSetters.set_tintColor "#ffffffcc"
      (Effect._init (Effect.mkParams None None None None None None None))
    = Some (st, true) /\
    Effect._dirty st = true /\
    Effect._tint st
    = Effect.mkTint (channel 15 15) (channel 15 15)
                    (channel 15 15) (channel 12 12) /\
    incl [("u_tint_r"%string, channel 15 15 - 1e-6);
          ("u_tint_g"%string, channel 15 15 - 1e-6);
          ("u_tint_b"%string, channel 15 15 - 1e-6);
          ("u_tint_a"%string, channel 12 12 - 1e-6)]
         (Effect.uploads
            (Effect.vfunc_paint_target (Some (Effect.mkActor 1920 32)) st)).
Proof.
  apply (tintColor_then_paint "f" "f" "f" "f" "f" "f" "c" "c"
           15 15 15 15 15 15 12 12 (Effect.mkActor 1920 32));
    try reflexivity; simpl; lra.
Defined.

End ColourFacts.

(** * Properties of the panel *)

Module PanelFacts.
Import Panel.

Lemma num_gt0_true (x : R) : 0 < x -> num_gt0 (Finite x) = true.
Proof.
  intros Hx. unfold num_gt0. destruct (Rgt_dec x 0); [reflexivity|lra].
Qed.

Lemma num_gt0_pos (x : R) : num_gt0 (Finite x) = true -> 0 < x.
Proof.
  unfold num_gt0. destruct (Rgt_dec x 0); [lra|discriminate].
Qed.

Lemma isFinite_add (a b : number) :
  isFinite (num_add a b) = (isFinite a && isFinite b)%bool.
Proof. destruct a, b; reflexivity. Qed.

Lemma isFinite_sub (a b : number) :
  isFinite (num_sub a b) = (isFinite a && isFinite b)%bool.
Proof. destruct a, b; reflexivity. Qed.

Lemma isFinite_half (a : number) : isFinite (num_half a) = isFinite a.
Proof. destruct a; reflexivity. Qed.

Lemma isFinite_inv (a : number) :
  isFinite a = true -> exists x : R, a = Finite x.
Proof. destruct a; try discriminate. intros _. eexists; reflexivity. Qed.

(** With every number finite and every size positive, the widget that
    [_updateClip] leaves. *)
Lemma updateClip_finite (widget : Widget)
      (boxW boxH pw ph bx by_ px py mx my : R) (parent : option (number * number)) :
  0 < boxW -> 0 < boxH -> 0 < pw -> 0 < ph ->
  match parent with
  | Some pos => pos = (Finite px, Finite py)
  | None => px = 0 /\ py = 0
  end ->
  _updateClip (Some widget) (mkPanelActor (Finite pw) (Finite ph))
    (Some (mkBox (Finite boxW, Finite boxH) (Finite bx, Finite by_) parent))
    (Some (mkMonitor (Finite mx) (Finite my)))
  = Some (mkWidget
            (Some (Finite (bx + px - mx + (boxW - pw) / 2),
                   Finite (by_ + py - my + (boxH - ph) / 2),
                   Finite pw, Finite ph))
            (Finite ((boxW - pw) / 2 - (bx + px - mx + (boxW - pw) / 2)))
            (Finite (0.5 + ((boxH - ph) / 2
                            - (by_ + py - my + (boxH - ph) / 2))))).
Proof.
  intros HW HH Hw Hh Hparent. unfold _updateClip.
  cbn [box_size box_position box_parent panel_width panel_height
       monitor_x monitor_y].
  rewrite !num_gt0_true by assumption. cbn [negb orb].
  destruct parent as [pos|].
  - subst pos. reflexivity.
  - destruct Hparent as [-> ->]. reflexivity.
Qed.

(** X27.  When the panel box and the panel are allocated (every size is
    [> 0], and the sizes, the positions and the origin of the monitor
    are finite), the widget is clipped to a rectangle of the size of
    the panel, at a finite origin, and it is moved so that this
    rectangle, seen from the parent of the widget, sits at the offset
    that centres the panel in its box, half a pixel down.  Otherwise (a
    size that is [NaN] or not positive, or a position or a size that is
    [NaN] or infinite) the widget is left as it was. *)
Theorem updateClip_aligns (widget : Widget) (panel : PanelActor)
        (box : Box) (mon : Monitor) :
  (allocated panel box mon = true ->
   exists boxW boxH pw ph clipX clipY wx wy : R,
     box_size box = (Finite boxW, Finite boxH) /\
     panel_width panel = Finite pw /\ panel_height panel = Finite ph /\
     _updateClip (Some widget) panel (Some box) (Some mon)
     = Some (mkWidget (Some (Finite clipX, Finite clipY, Finite pw, Finite ph))
                      (Finite wx) (Finite wy)) /\
     wx + clipX = (boxW - pw) / 2 /\
     wy + clipY = 0.5 + (boxH - ph) / 2) /\
  (allocated panel box mon = false ->
   _updateClip (Some widget) panel (Some box) (Some mon) = Some widget).
Proof.
  destruct panel as [pw ph].
  destruct box as [[boxW boxH] [bx by_] parent].
  destruct mon as [mx my].
  unfold allocated.
  cbn [box_size box_position box_parent panel_width panel_height
       monitor_x monitor_y fst snd].
  split.
  - intros Hall.
    repeat (apply andb_prop in Hall; destruct Hall as [Hall ?]).
    destruct (isFinite_inv boxW) as [rW ->]; [assumption|].
    destruct (isFinite_inv boxH) as [rH ->]; [assumption|].
    destruct (isFinite_inv pw) as [rw ->]; [assumption|].
    destruct (isFinite_inv ph) as [rh ->]; [assumption|].
    destruct (isFinite_inv bx) as [rbx ->]; [assumption|].
    destruct (isFinite_inv by_) as [rby ->]; [assumption|].
    destruct (isFinite_inv mx) as [rmx ->]; [assumption|].
    destruct (isFinite_inv my) as [rmy ->]; [assumption|].
    assert (HW : 0 < rW) by (apply num_gt0_pos; assumption).
    assert (HH : 0 < rH) by (apply num_gt0_pos; assumption).
    assert (Hw : 0 < rw) by (apply num_gt0_pos; assumption).
    assert (Hh : 0 < rh) by (apply num_gt0_pos; assumption).
    destruct parent as [[px py]|].
    + match goal with
      | Hp : (isFinite px && isFinite py)%bool = true |- _ =>
          apply andb_prop in Hp; destruct Hp as [Hpx Hpy]
      end.
      destruct (isFinite_inv px Hpx) as [rpx ->].
      destruct (isFinite_inv py Hpy) as [rpy ->].
      exists rW, rH, rw, rh. do 4 eexists.
      split; [reflexivity|]. split; [reflexivity|]. split; [reflexivity|].
      split; [|split].
      * apply (updateClip_finite widget rW rH rw rh rbx rby rpx rpy rmx rmy);
          try assumption. reflexivity.
      * lra.
      * lra.
    + exists rW, rH, rw, rh. do 4 eexists.
      split; [reflexivity|]. split; [reflexivity|]. split; [reflexivity|].
      split; [|split].
      * apply (updateClip_finite widget rW rH rw rh rbx rby 0 0 rmx rmy);
          try assumption. split; reflexivity.
      * lra.
      * lra.
  - intros Hall. unfold _updateClip.
    cbn [box_size box_position box_parent panel_width panel_height
         monitor_x monitor_y].
    destruct (num_gt0 boxW); [|reflexivity].
    destruct (num_gt0 boxH); [|reflexivity].
    destruct (num_gt0 pw); [|reflexivity].
    destruct (num_gt0 ph); [|reflexivity].
    cbn [negb orb andb] in Hall |- *.
    assert (Hguard : forall px py : number,
      (isFinite boxW && isFinite boxH && isFinite pw && isFinite ph
       && isFinite bx && isFinite by_ && (isFinite px && isFinite py)
       && isFinite mx && isFinite my)%bool = false ->
      (negb (isFinite
               (num_add (num_sub (num_add bx px) mx)
                        (num_half (num_sub boxW pw))))
       || negb (isFinite
                  (num_add (num_sub (num_add by_ py) my)
                           (num_half (num_sub boxH ph))))
       || negb (isFinite
                  (num_sub (num_half (num_sub boxW pw))
                     (num_add (num_sub (num_add bx px) mx)
                              (num_half (num_sub boxW pw)))))
       || negb (isFinite
                  (num_sub (num_half (num_sub boxH ph))
                     (num_add (num_sub (num_add by_ py) my)
                              (num_half (num_sub boxH ph))))))%bool = true).
    { intros px py Hfin.
      rewrite ?isFinite_sub, ?isFinite_add, ?isFinite_half,
              ?isFinite_sub, ?isFinite_add.
      destruct (isFinite boxW), (isFinite boxH), (isFinite pw), (isFinite ph),
               (isFinite bx), (isFinite by_), (isFinite px), (isFinite py),
               (isFinite mx), (isFinite my);
        first [reflexivity | discriminate Hfin]. }
    destruct parent as [[px py]|].
    + rewrite (Hguard px py Hall). reflexivity.
    + rewrite (Hguard (Finite 0) (Finite 0)); [reflexivity|].
      cbn [isFinite andb]. exact Hall.
Qed.

(** A panel of 1920 by 32 in a box of the same size at the origin of
    the monitor is allocated, and its widget is clipped. *)
Lemma updateClip_aligns_witness :
  exists boxW boxH pw ph clipX clipY wx wy : R,
    (Finite 1920, Finite 32) = (Finite boxW, Finite boxH) /\
    Finite 1920 = Finite pw /\ Finite 32 = Finite ph /\
    _updateClip (Some (mkWidget None NaN NaN))
      (mkPanelActor (Finite 1920) (Finite 32))
      (Some (mkBox (Finite 1920, Finite 32) (Finite 0, Finite 0) None))
      (Some (mkMonitor (Finite 0) (Finite 0)))
    = Some (mkWidget (Some (Finite clipX, Finite clipY, Finite pw, Finite ph))
                     (Finite wx) (Finite wy)) /\
    wx + clipX = (boxW - pw) / 2 /\
    wy + clipY = 0.5 + (boxH - ph) / 2.
Proof.
  apply (updateClip_aligns (mkWidget None NaN NaN)
           (mkPanelActor (Finite 1920) (Finite 32))
           (mkBox (Finite 1920, Finite 32) (Finite 0, Finite 0) None)
           (mkMonitor (Finite 0) (Finite 0))).
  unfold allocated.
  cbn [box_size box_position box_parent panel_width panel_height
       monitor_x monitor_y fst snd isFinite].
  rewrite !num_gt0_true by lra. reflexivity.
Defined.

End PanelFacts.
